(** * postfile: saving the bodies of POST requests to numbered files

    A shallow embedding of [postfile.go] (package main) and of the parts of
    the Go standard library that its handler calls, followed by the
    properties of the handler, of the name allocation and of the start-up
    code.

    Conventions.
    - Go strings are byte strings: [string] (one [ascii] per byte).
    - Go's [int] and [int64] are 64-bit two's complement numbers: [Z] with
      the wrap-around written out ([wrap_int]).
    - [error] values are a small inductive type; [nil] is [None].
    - The output directory is a finite map from entry names to contents.
    - Loops that need not terminate take a fuel argument and return [None]
      when it runs out. *)

From Stdlib Require Import ZArith Lia Ascii String List Bool.
From stdpp Require Import base tactics option list strings gmap.

Local Open Scope Z_scope.

(** ** Machine integers *)

Definition intSize : Z := 64.
Definition MaxInt : Z := 2 ^ (intSize - 1) - 1.
Definition MinInt : Z := - 2 ^ (intSize - 1).

(** Two's-complement wrap-around of a mathematical integer to [int]. *)
Definition wrap_int (x : Z) : Z :=
  (x + 2 ^ (intSize - 1)) mod 2 ^ intSize - 2 ^ (intSize - 1).

Definition int_add (a b : Z) : Z := wrap_int (a + b).

(** ** Package fmt: the integer verbs used by the program *)

Module Fmt.

Definition digit_char (d : Z) : ascii :=
  ascii_of_nat (48 + Z.to_nat d).

(** [fmtInteger]'s digit loop for base 10: digits are produced from the
    least significant one, in front of what is already in the buffer.  A
    [uint64] has at most twenty digits, which bounds the loop. *)
Fixpoint fmt_digits (fuel : nat) (u : Z) (acc : string) : string :=
  match fuel with
  | O => acc
  | S fuel' =>
      if u <? 10 then String (digit_char u) acc
      else fmt_digits fuel' (u / 10) (String (digit_char (u mod 10)) acc)
  end.

Fixpoint zeros (n : nat) : string :=
  match n with
  | O => EmptyString
  | S n' => String "0"%char (zeros n')
  end.

(** [fmtInteger] for a signed base-10 integer: [prec] is the least number of
    digits (zero padding), and the sign goes in front of the padding. *)
Definition fmtInteger (n : Z) (prec : nat) : string :=
  let negative := n <? 0 in
  let u := Z.abs n in
  let ds := fmt_digits 20 u EmptyString in
  let padded := zeros (prec - String.length ds) +:+ ds in
  if negative then String "-"%char padded else padded.

(** The verb [%v] on an integer. *)
Definition fmt_v (n : Z) : string := fmtInteger n 0.

(** The verb [%06v] on an integer: the zero flag with width 6 asks for six
    digits, or for five and a sign when the number is negative. *)
Definition fmt_06v (n : Z) : string :=
  fmtInteger n (if n <? 0 then 5 else 6).

End Fmt.

(** ** Package strings *)

Module Strings.

Fixpoint HasPrefix (s prefix : string) {struct prefix} : bool :=
  match prefix, s with
  | EmptyString, _ => true
  | String p prefix', String c s' => Ascii.eqb c p && HasPrefix s' prefix'
  | String _ _, EmptyString => false
  end.

Fixpoint drop (n : nat) (s : string) : string :=
  match n, s with
  | O, _ => s
  | S n', String _ s' => drop n' s'
  | S _, EmptyString => EmptyString
  end.

(** [strings.TrimPrefix]: [s] without the leading [prefix], or [s] itself
    when it does not start with [prefix]. *)
Definition TrimPrefix (s prefix : string) : string :=
  if HasPrefix s prefix then drop (String.length prefix) s else s.

(** [strings.Replace s old new n] with a one-byte [old], as the program
    calls it: the first [n] occurrences are replaced, all of them when [n]
    is negative. *)
Fixpoint Replace (s : string) (old : ascii) (new : string) (n : Z) : string :=
  match s with
  | EmptyString => EmptyString
  | String c s' =>
      if n =? 0 then s
      else if Ascii.eqb c old then new +:+ Replace s' old new (n - 1)
      else String c (Replace s' old new n)
  end.

(** [strings.Join] with the separator ["/"]. *)
Fixpoint Join (elems : list string) (sep : string) : string :=
  match elems with
  | [] => EmptyString
  | [e] => e
  | e :: rest => e +:+ sep +:+ Join rest sep
  end.

End Strings.

(** ** Package path/filepath (Unix) *)

Module Filepath.

Definition Separator : ascii := "/"%char.

Definition IsPathSeparator (c : ascii) : bool := Ascii.eqb c Separator.

Definition is_dot (c : ascii) : bool := Ascii.eqb c "."%char.

(** [r == n || IsPathSeparator(path[r])] on what is left of the path. *)
Definition at_end_or_sep (p : list ascii) : bool :=
  match p with
  | [] => true
  | c :: _ => IsPathSeparator c
  end.

(** The loop [for out.w > dotdot && !IsPathSeparator(out.index(out.w))
    { out.w-- }] of the [..] case, on the write index [w]. *)
Fixpoint backtrack (out : list ascii) (dotdot w : nat) : nat :=
  match w with
  | O => O
  | S w' =>
      if (dotdot <? w)%nat && negb (IsPathSeparator (nth w out Separator))
      then backtrack out dotdot w'
      else w
  end.

(** The element that starts [p], up to the next separator, and the rest. *)
Fixpoint span_elem (p : list ascii) : list ascii * list ascii :=
  match p with
  | [] => ([], [])
  | c :: p' =>
      if IsPathSeparator c then ([], p)
      else let '(e, rest) := span_elem p' in (c :: e, rest)
  end.

(** The main loop of [Clean].  [p] is [path[r:]], [out] is the buffer
    [out.buf[:out.w]] and [dotdot] the index where [..] must stop. *)
Fixpoint clean_loop (fuel : nat) (rooted : bool) (p out : list ascii)
    (dotdot : nat) : list ascii :=
  match fuel with
  | O => out
  | S fuel' =>
      match p with
      | [] => out
      | c :: p1 =>
          if IsPathSeparator c then
            (* empty path element *)
            clean_loop fuel' rooted p1 out dotdot
          else if is_dot c && at_end_or_sep p1 then
            (* . element *)
            clean_loop fuel' rooted p1 out dotdot
          else if is_dot c &&
                  match p1 with
                  | c2 :: p2 => is_dot c2 && at_end_or_sep p2
                  | [] => false
                  end then
            (* .. element: remove to last separator *)
            let p2 := List.skipn 1 p1 in
            if (dotdot <? length out)%nat then
              let w := backtrack out dotdot (length out - 1) in
              clean_loop fuel' rooted p2 (List.firstn w out) dotdot
            else if negb rooted then
              let out1 :=
                if (0 <? length out)%nat then out ++ [Separator] else out in
              let out2 := out1 ++ ["."%char; "."%char] in
              clean_loop fuel' rooted p2 out2 (length out2)
            else clean_loop fuel' rooted p2 out dotdot
          else
            (* real path element: add slash if needed, copy element *)
            let out1 :=
              if (rooted && negb (length out =? 1)%nat)
                 || (negb rooted && negb (length out =? 0)%nat)
              then out ++ [Separator] else out in
            let '(e, rest) := span_elem p in
            clean_loop fuel' rooted rest (out1 ++ e) dotdot
      end
  end.

Definition clean_bytes (path : list ascii) : list ascii :=
  match path with
  | [] => ["."%char]
  | c :: p1 =>
      let rooted := IsPathSeparator c in
      let out :=
        if rooted
        then clean_loop (length path) rooted p1 [Separator] 1
        else clean_loop (length path) rooted path [] 0 in
      match out with
      | [] => ["."%char]
      | _ => out
      end
  end.

(** [filepath.Clean]: the shortest path name equivalent to [path] by purely
    lexical processing. *)
Definition Clean (path : string) : string :=
  string_of_list_ascii (clean_bytes (list_ascii_of_string path)).

(** [filepath.IsAbs]. *)
Definition IsAbs (path : string) : bool := Strings.HasPrefix path "/".

(** [filepath.Join]: the elements from the first non-empty one on, joined
    with the separator and cleaned; the empty string when all are empty. *)
Fixpoint Join (elem : list string) : string :=
  match elem with
  | [] => EmptyString
  | e :: rest =>
      if String.eqb e EmptyString then Join rest
      else Clean (Strings.Join elem "/")
  end.

End Filepath.

(** ** Errors *)

(** Go [error] values that the program can meet.  [nil] is [None]. *)
Inductive error : Type :=
| ENOENT          (* no such file or directory *)
| EEXIST          (* file exists *)
| EACCES          (* permission denied *)
| ENAMETOOLONG    (* file name too long *)
| ENOSPC          (* no space left on device *)
| EFBIG           (* file too large *)
| EIO             (* input/output error *)
| EOF             (* io.EOF *)
| ErrUnexpectedEOF (* the client closed the connection inside the body *)
| ErrShortWrite.  (* io.ErrShortWrite *)

Global Instance error_eq_dec : EqDecision error.
Proof. solve_decision. Defined.

(** ** The request and the response writer *)

(** The request body as the handler reads it: [Read] returns the chunks in
    order and then fails, with [io.EOF] at the end of a complete body
    ([body_err = None]) or with another error. *)
Record BodyStream : Type := mkBody {
  chunks : list (list Byte.byte);
  body_err : option error
}.

(** [http.Request], with the fields that the handler uses. *)
Record Request : Type := mkRequest {
  RemoteAddr : string;
  Method : string;
  URL_Path : string;
  Proto : string;
  Host : string;
  UserAgent : string;
  Body : BodyStream
}.

(** [http.ResponseWriter]: the status line is sent by the first
    [WriteHeader], or by the first [Write] with status 200. *)
Record ResponseWriter : Type := mkResponse {
  wroteHeader : bool;
  status : Z;
  written : string
}.

Module Http.

Definition MethodPost : string := "POST".
Definition StatusOK : Z := 200.
Definition StatusMethodNotAllowed : Z := 405.
Definition StatusInternalServerError : Z := 500.

Definition newResponse : ResponseWriter :=
  {| wroteHeader := false; status := 0; written := EmptyString |}.

Definition WriteHeader (w : ResponseWriter) (code : Z) : ResponseWriter :=
  if wroteHeader w then w
  else {| wroteHeader := true; status := code; written := written w |}.

Definition Write (w : ResponseWriter) (data : string) : ResponseWriter :=
  let w1 := WriteHeader w StatusOK in
  {| wroteHeader := wroteHeader w1; status := status w1;
     written := written w1 +:+ data |}.

(** [http.Error]: [w.WriteHeader(code)] and then [fmt.Fprintln(w, error)],
    which ends the message with a newline.  (The headers it sets are not
    modelled.) *)
Definition Error (w : ResponseWriter) (msg : string) (code : Z)
    : ResponseWriter :=
  Write (WriteHeader w code) (msg +:+ String "010"%char EmptyString).

End Http.

(** ** The process and its output directory *)

(** The lines that the handler logs.  Every line starts with the request
    string [rs], which is the same for all of them and is left out. *)
Inductive LogLine : Type :=
| LogInvalidMethod
| LogUnableToOpen (e : error)
| LogWriteError (n : Z) (name : string) (e : error)
| LogWrote (n : Z) (name : string).

(** What the handler does to the outside, in order. *)
Inductive Event : Type :=
| EvLog (l : LogLine)
| EvLock
| EvUnlock
| EvStat (name : string) (res : option error)
| EvOpenFile (name : string) (res : option error)
| EvRead (n : nat) (res : option error)
| EvFileWrite (name : string) (n : nat) (res : option error)
| EvFileClose (name : string)
| EvBodyClose.

(** The state that the handler works on.  [files] is the output directory
    (the working directory of the process); [handles] the files that are
    open; [locked] the state of [LOCK].  The last three fields describe the
    file system's failures and never change: a failing [stat] or [open] of a
    name, and the largest size that a file of that name may reach. *)
Record World : Type := mkWorld {
  files : gmap string (list Byte.byte);
  handles : list string;
  locked : bool;
  trace : list Event;
  stat_fault : string -> option error;
  open_fault : string -> option error;
  size_limit : string -> option Z
}.

Definition emit (w : World) (e : Event) : World :=
  {| files := files w; handles := handles w; locked := locked w;
     trace := trace w ++ [e];
     stat_fault := stat_fault w; open_fault := open_fault w;
     size_limit := size_limit w |}.

Definition set_files (w : World) (fs : gmap string (list Byte.byte)) : World :=
  {| files := fs; handles := handles w; locked := locked w;
     trace := trace w;
     stat_fault := stat_fault w; open_fault := open_fault w;
     size_limit := size_limit w |}.

Definition set_handles (w : World) (hs : list string) : World :=
  {| files := files w; handles := hs; locked := locked w;
     trace := trace w;
     stat_fault := stat_fault w; open_fault := open_fault w;
     size_limit := size_limit w |}.

Definition set_locked (w : World) (b : bool) : World :=
  {| files := files w; handles := handles w; locked := b;
     trace := trace w;
     stat_fault := stat_fault w; open_fault := open_fault w;
     size_limit := size_limit w |}.

(** [*os.File]: a handle on the file of that name. *)
Record File : Type := mkFile { Name : string }.

(** The largest offset of a file: [off_t] is a signed 64-bit number. *)
Definition MaxFileSize : Z := MaxInt.

Module Os.

(** [os.IsNotExist]. *)
Definition IsNotExist (e : error) : bool :=
  match e with
  | ENOENT => true
  | _ => false
  end.

(** The error of [os.Stat name]: the file system's failure for that name if
    it has one, no error for an entry of the directory, and [ENOENT]
    otherwise. *)
Definition stat_result (w : World) (name : string) : option error :=
  match stat_fault w name with
  | Some e => Some e
  | None =>
      match files w !! name with
      | Some _ => None
      | None => Some ENOENT
      end
  end.

Definition Stat (w : World) (name : string) : World * option error :=
  let res := stat_result w name in
  (emit w (EvStat name res), res).

(** [os.OpenFile name (O_WRONLY|O_APPEND|O_CREATE|O_EXCL) 0600]: fails on an
    existing entry, and otherwise creates an empty file and opens it. *)
Definition open_result (w : World) (name : string) : option error :=
  match open_fault w name with
  | Some e => Some e
  | None =>
      match files w !! name with
      | Some _ => Some EEXIST
      | None => None
      end
  end.

Definition OpenFile (w : World) (name : string) : World * (File + error) :=
  match open_result w name with
  | Some e => (emit w (EvOpenFile name (Some e)), inr e)
  | None =>
      let w1 := set_files w (<[name := []]> (files w)) in
      let w2 := set_handles w1 (name :: handles w1) in
      (emit w2 (EvOpenFile name None), inl (mkFile name))
  end.

Definition content (w : World) (name : string) : list Byte.byte :=
  default [] (files w !! name).

(** The size that the file of that name may reach. *)
Definition limit (w : World) (name : string) : Z :=
  match size_limit w name with
  | Some l => Z.min l MaxFileSize
  | None => MaxFileSize
  end.

(** The error of a write that does not fit. *)
Definition full_error (w : World) (name : string) : error :=
  match size_limit w name with
  | Some l => if l <? MaxFileSize then ENOSPC else EFBIG
  | None => EFBIG
  end.

(** [f.Write b] on a file opened with [O_APPEND]: the bytes go to the end
    of the file; when the file may not grow that far, the bytes that fit are
    written and the call fails.  The result is the number of bytes written
    and the error. *)
Definition Write (w : World) (f : File) (b : list Byte.byte)
    : World * nat * option error :=
  let cur := content w (Name f) in
  let room := limit w (Name f) - Z.of_nat (length cur) in
  if Z.of_nat (length b) <=? room then
    let w1 := set_files w (<[Name f := cur ++ b]> (files w)) in
    (emit w1 (EvFileWrite (Name f) (length b) None), length b, None)
  else
    let k := Z.to_nat room in
    let e := full_error w (Name f) in
    let w1 := set_files w (<[Name f := cur ++ List.firstn k b]> (files w)) in
    (emit w1 (EvFileWrite (Name f) k (Some e)), k, Some e).

Fixpoint remove_first (x : string) (l : list string) : list string :=
  match l with
  | [] => []
  | y :: l' => if String.eqb x y then l' else y :: remove_first x l'
  end.

(** [f.Close]. *)
Definition Close (w : World) (f : File) : World :=
  emit (set_handles w (remove_first (Name f) (handles w)))
       (EvFileClose (Name f)).

End Os.

Module Io.

(** [r.Body.Read]: the next chunk, or the error that ends the stream. *)
Definition Read (b : BodyStream)
    : list Byte.byte * option error * BodyStream :=
  match chunks b with
  | c :: cs => (c, None, mkBody cs (body_err b))
  | [] => ([], Some (default EOF (body_err b)), b)
  end.

(** The loop of [io.Copy dst src], by recursion on the chunks that [Read]
    will return: every chunk that is not empty is written to [dst]; a
    failed or short write ends the loop with that error, the end of the
    stream ends it with the stream's error, and [io.EOF] counts as no
    error.  The result is the number of bytes written and the error. *)
Fixpoint copy_loop (s : World) (dst : File) (cs : list (list Byte.byte))
    (end_err : option error) (n : Z) : World * Z * option error :=
  match cs with
  | [] =>
      let er := default EOF end_err in
      (emit s (EvRead 0 (Some er)), n,
       if decide (er = EOF) then None else Some er)
  | c :: cs' =>
      let s0 := emit s (EvRead (length c) None) in
      if (0 <? length c)%nat then
        let '(s1, nw, ew) := Os.Write s0 dst c in
        let n1 := int_add n (Z.of_nat nw) in
        match ew with
        | Some e => (s1, n1, Some e)
        | None =>
            if (nw =? length c)%nat then copy_loop s1 dst cs' end_err n1
            else (s1, n1, Some ErrShortWrite)
        end
      else copy_loop s0 dst cs' end_err n
  end.

Definition Copy (s : World) (dst : File) (src : BodyStream)
    : World * Z * option error :=
  copy_loop s dst (chunks src) (body_err src) 0.

End Io.

(** ** postfile.go *)

(** [LOCK] locks the output directory, to avoid file clobbering.  [Lock]
    does not return while the mutex is held. *)
Definition LOCK_Lock (s : World) : option World :=
  if locked s then None else Some (emit (set_locked s true) EvLock).

Definition LOCK_Unlock (s : World) : World :=
  emit (set_locked s false) EvUnlock.

(** [makeName] makes a name from the given request and number. *)
Definition makeName (r : Request) (num : Z) : string :=
  RemoteAddr r +:+ "_" +:+
  Strings.Replace
    (Strings.TrimPrefix (Filepath.Clean (URL_Path r)) "/")
    "/"%char "_" (-1)
  +:+ "_" +:+ Fmt.fmt_06v num.

(** The condition of the loop of [openFile]:
    [nil == err || !os.IsNotExist(err)]. *)
Definition keep_trying (err : option error) : bool :=
  match err with
  | None => true
  | Some e => negb (Os.IsNotExist e)
  end.

(** The loop of [openFile], entered at its condition with the current
    values of [name], [num] and [err]: the body stats [name] and increments
    [num], and the post statement makes the name for the new [num]. *)
Fixpoint probe (fuel : nat) (s : World) (r : Request) (name : string)
    (num : Z) (err : option error) : option (World * string) :=
  if keep_trying err then
    match fuel with
    | O => None
    | S fuel' =>
        let '(s1, err1) := Os.Stat s name in
        let num1 := int_add num 1 in
        probe fuel' s1 r (makeName r num1) num1 err1
    end
  else Some (s, name).

(** [openFile] opens a file for this request. *)
Definition openFile (fuel : nat) (s : World) (r : Request)
    : option (World * (File + error)) :=
  match LOCK_Lock s with
  | None => None
  | Some s1 =>
      match probe fuel s1 r (makeName r 0) 0 None with
      | None => None
      | Some (s2, name) =>
          let '(s3, res) := Os.OpenFile s2 name in
          Some (LOCK_Unlock s3, res)
      end
  end.

Definition Body_Close (s : World) : World := emit s EvBodyClose.

(** [handle] writes POST data to files. *)
Definition handle (fuel : nat) (s : World) (w : ResponseWriter) (r : Request)
    : option (World * ResponseWriter) :=
  if negb (String.eqb Http.MethodPost (Method r)) then
    let s1 := emit s (EvLog LogInvalidMethod) in
    Some (Body_Close s1,
          Http.Error w "Invalid method" Http.StatusMethodNotAllowed)
  else
    match openFile fuel s r with
    | None => None
    | Some (s1, inr err) =>
        let s2 := emit s1 (EvLog (LogUnableToOpen err)) in
        Some (Body_Close s2,
              Http.Error w "open" Http.StatusInternalServerError)
    | Some (s1, inl f) =>
        let '(s2, n, err) := Io.Copy s1 f (Body r) in
        match err with
        | Some e =>
            let s3 := emit s2 (EvLog (LogWriteError n (Name f) e)) in
            Some (Body_Close (Os.Close s3 f),
                  Http.Error w "write" Http.StatusInternalServerError)
        | None =>
            let s3 := emit s2 (EvLog (LogWrote n (Name f))) in
            Some (Body_Close (Os.Close s3 f),
                  Http.Write w (Fmt.fmt_v n))
        end
    end.

(** *** Start-up: the listener of [main] *)

(** The command-line flags. *)
Record Flags : Type := mkFlags {
  plaintext : bool;
  laddr : string;
  cert : string;
  key : string;
  dir : string;
  serveFCGI : bool
}.

(** The system calls of the start-up code that can fail: the error of each
    for its arguments, [None] for success. *)
Record Sys : Type := mkSys {
  getwd_err : option error;
  mkdirall_err : string -> option error;
  chdir_err : string -> option error;
  keypair_err : string -> string -> option error;
  listen_err : string -> string -> option error
}.

(** The [log.Fatalf] calls of [main]. *)
Inductive FatalMsg : Type :=
| UnableToGetWorkingDirectory (e : error)
| UnableToMakeDirectory (d : string) (e : error)
| UnableToCd (d : string) (e : error)
| UnableToListen (e : error)
| UnableToLoadKeypair (c k : string) (e : error)
| UnableToListenOn (addr : string) (e : error).

Inductive Server : Type := ServeFastCGI | ServeHTTP.

(** A listener: the network and address given to [Listen], whether it
    performs the TLS handshake, and the directory entry at which the
    kernel has bound the socket when the network is ["unix"]. *)
Record Listener : Type := mkListener {
  network : string;
  address : string;
  tls : bool;
  bound_at : option string
}.

(** How the start-up ends: with [log.Fatalf], with the run-time panic of a
    method call on a nil listener, or in the serve loop of [fcgi.Serve] or
    [http.Serve]. *)
Inductive Outcome : Type :=
| Fatal (m : FatalMsg)
| PanicNilListener
| Serve (srv : Server) (l : Listener).

(** How the kernel finds the entry that a path names: from the root for an
    absolute path, and from the working directory otherwise. *)
Definition resolve (cwd path : string) : string :=
  if Filepath.IsAbs path then path else cwd +:+ "/" +:+ path.

(** The working directory after [os.Chdir d]. *)
Definition chdir (cwd d : string) : string :=
  Filepath.Clean (resolve cwd d).

(** [main], from [os.Getwd] to the call of [fcgi.Serve] or [http.Serve].
    [cwd0] is the working directory in which the process starts. *)
Definition main (sys : Sys) (cwd0 : string) (fl : Flags) : Outcome :=
  (* Get original cwd in case we have a relative socket *)
  match getwd_err sys with
  | Some e => Fatal (UnableToGetWorkingDirectory e)
  | None =>
  let opwd := cwd0 in
  (* Be in the output directory *)
  match mkdirall_err sys (dir fl) with
  | Some e => Fatal (UnableToMakeDirectory (dir fl) e)
  | None =>
  match chdir_err sys (dir fl) with
  | Some e => Fatal (UnableToCd (dir fl) e)
  | None =>
  let cwd := chdir cwd0 (dir fl) in
  let srv := if serveFCGI fl then ServeFastCGI else ServeHTTP in
  (* Come up with a TLS or plaintext listener *)
  if plaintext fl then
    match listen_err sys "tcp" (laddr fl) with
    | Some e => Fatal (UnableToListenOn (laddr fl) e)
    | None => Serve srv (mkListener "tcp" (laddr fl) false None)
    end
  else if serveFCGI fl then
    (* If the path is relative, make it relative to the original working
       directory. *)
    let laddr1 :=
      if negb (Filepath.IsAbs (laddr fl))
      then Filepath.Join [opwd; laddr fl]
      else laddr fl in
    (* Listen on a unix socket for fcgi *)
    match listen_err sys "unix" laddr1 with
    | Some e => Fatal (UnableToListen e)
    | None =>
        Serve srv (mkListener "unix" laddr1 false (Some (resolve cwd laddr1)))
    end
  else
    match keypair_err sys (cert fl) (key fl) with
    | Some e => Fatal (UnableToLoadKeypair (cert fl) (key fl) e)
    | None =>
        (* Listen with TLS.  The [err] that [tls.Listen] assigns is the one
           that [pair, err :=] has declared in this block, so the check
           after the block does not see it, and [l.Addr()] is called on
           the nil listener. *)
        match listen_err sys "tcp" (laddr fl) with
        | Some e => PanicNilListener
        | None => Serve srv (mkListener "tcp" (laddr fl) true None)
        end
    end
  end end end.

(** *** Concurrent requests *)

(** The server runs [handle] in one goroutine per request.  A goroutine is
    at one of these points of [handle] and [openFile]; between two points
    it performs one step on the shared state. *)
Inductive PC : Type :=
| AtStart                       (* handle: before the method check *)
| AtLock                        (* openFile: before LOCK.Lock() *)
| AtCond (name : string) (num : Z) (err : option error)
                                (* openFile: at the condition of the loop *)
| AtOpen (name : string)        (* openFile: before os.OpenFile *)
| AtUnlock (res : File + error) (* openFile: before the deferred Unlock *)
| AtOpened (res : File + error) (* handle: openFile has returned *)
| AtCopy (f : File) (cs : list (list Byte.byte)) (n : Z)
                                (* handle: inside io.Copy *)
| Done.                         (* handle has returned *)

Record Thread : Type := mkThread {
  t_req : Request;
  t_rw : ResponseWriter;
  t_pc : PC
}.

Definition at_pc (t : Thread) (pc : PC) : Thread :=
  mkThread (t_req t) (t_rw t) pc.

Definition finish (t : Thread) (w : ResponseWriter) : Thread :=
  mkThread (t_req t) w Done.

(** One step of a goroutine; [None] when it cannot move: it waits for the
    lock or has returned. *)
Definition tstep (s : World) (t : Thread) : option (World * Thread) :=
  let r := t_req t in
  match t_pc t with
  | AtStart =>
      if negb (String.eqb Http.MethodPost (Method r)) then
        Some (Body_Close (emit s (EvLog LogInvalidMethod)),
              finish t (Http.Error (t_rw t) "Invalid method"
                          Http.StatusMethodNotAllowed))
      else Some (s, at_pc t AtLock)
  | AtLock =>
      match LOCK_Lock s with
      | None => None
      | Some s1 => Some (s1, at_pc t (AtCond (makeName r 0) 0 None))
      end
  | AtCond name num err =>
      if keep_trying err then
        let '(s1, err1) := Os.Stat s name in
        let num1 := int_add num 1 in
        Some (s1, at_pc t (AtCond (makeName r num1) num1 err1))
      else Some (s, at_pc t (AtOpen name))
  | AtOpen name =>
      let '(s1, res) := Os.OpenFile s name in
      Some (s1, at_pc t (AtUnlock res))
  | AtUnlock res => Some (LOCK_Unlock s, at_pc t (AtOpened res))
  | AtOpened (inr err) =>
      Some (Body_Close (emit s (EvLog (LogUnableToOpen err))),
            finish t (Http.Error (t_rw t) "open"
                        Http.StatusInternalServerError))
  | AtOpened (inl f) => Some (s, at_pc t (AtCopy f (chunks (Body r)) 0))
  | AtCopy f cs n =>
      let fail s2 n2 e :=
        Some (Body_Close
                (Os.Close (emit s2 (EvLog (LogWriteError n2 (Name f) e))) f),
              finish t (Http.Error (t_rw t) "write"
                          Http.StatusInternalServerError)) in
      match cs with
      | [] =>
          let er := default EOF (body_err (Body r)) in
          let s1 := emit s (EvRead 0 (Some er)) in
          if decide (er = EOF) then
            Some (Body_Close
                    (Os.Close (emit s1 (EvLog (LogWrote n (Name f)))) f),
                  finish t (Http.Write (t_rw t) (Fmt.fmt_v n)))
          else fail s1 n er
      | c :: cs' =>
          let s0 := emit s (EvRead (length c) None) in
          if (0 <? length c)%nat then
            let '(s1, nw, ew) := Os.Write s0 f c in
            let n1 := int_add n (Z.of_nat nw) in
            match ew with
            | Some e => fail s1 n1 e
            | None =>
                if (nw =? length c)%nat
                then Some (s1, at_pc t (AtCopy f cs' n1))
                else fail s1 n1 ErrShortWrite
            end
          else Some (s0, at_pc t (AtCopy f cs' n))
      end
  | Done => None
  end.

(** A goroutine alone: at most [n] steps. *)
Fixpoint run (n : nat) (s : World) (t : Thread) : World * Thread :=
  match n with
  | O => (s, t)
  | S n' =>
      match tstep s t with
      | None => (s, t)
      | Some (s1, t1) => run n' s1 t1
      end
  end.

(** The server: the shared state and the goroutines in flight.  A step
    either accepts a request, which starts a goroutine, or lets one of the
    goroutines move. *)
Inductive step : World * list Thread -> World * list Thread -> Prop :=
| step_accept s ts r :
    step (s, ts) (s, ts ++ [mkThread r Http.newResponse AtStart])
| step_thread s s' t t' before after :
    tstep s t = Some (s', t') ->
    step (s, before ++ t :: after) (s', before ++ t' :: after).

Inductive reachable (s0 : World) : World * list Thread -> Prop :=
| reach_init : reachable s0 (s0, [])
| reach_step st st' : reachable s0 st -> step st st' -> reachable s0 st'.

(** A goroutine executes the find-unused-name-then-create-file sequence
    from the return of [LOCK.Lock] to the deferred [LOCK.Unlock]. *)
Definition in_sequence (t : Thread) : bool :=
  match t_pc t with
  | AtCond _ _ _ | AtOpen _ | AtUnlock _ => true
  | _ => false
  end.

Definition streaming (t : Thread) : bool :=
  match t_pc t with
  | AtCopy _ _ _ => true
  | _ => false
  end.

Definition in_sequence_count (ts : list Thread) : nat :=
  length (List.filter in_sequence ts).

(** ** Notions used in the statements *)

(** The value of a string of decimal digits, read from the left. *)
Fixpoint digits_value (s : string) (acc : Z) : option Z :=
  match s with
  | EmptyString => Some acc
  | String c s' =>
      let d := Z.of_nat (nat_of_ascii c) - 48 in
      if (0 <=? d) && (d <=? 9) then digits_value s' (acc * 10 + d)
      else None
  end.

(** The number that a decimal representation denotes. *)
Definition decimal_value (s : string) : option Z :=
  match s with
  | EmptyString => None
  | String "-" s' => Z.opp <$> digits_value s' 0
  | _ => digits_value s 0
  end.

(** The string has no path separator. *)
Fixpoint no_slash (s : string) : bool :=
  match s with
  | EmptyString => true
  | String c s' => negb (Ascii.eqb c "/") && no_slash s'
  end.

(** Every separator flattened to an underscore. *)
Fixpoint flatten (s : string) : string :=
  match s with
  | EmptyString => EmptyString
  | String c s' => String (if Ascii.eqb c "/" then "_"%char else c) (flatten s')
  end.

(** The sequence number of the candidate that the [k]-th iteration of the
    loop of [openFile] stats: [num] after [k] increments. *)
Fixpoint nth_num (k : nat) : Z :=
  match k with
  | O => 0
  | S k' => int_add (nth_num k') 1
  end.

(** The [k]-th candidate name of a request. *)
Definition candidate (r : Request) (k : nat) : string :=
  makeName r (nth_num k).

(** The [os.Stat] calls of the first [n] iterations. *)
Definition stat_events (s : World) (r : Request) (n : nat) : list Event :=
  List.map (fun k => EvStat (candidate r k) (Os.stat_result s (candidate r k)))
           (List.seq 0 n).

(** A quiet file system: an empty directory and no failures. *)
Definition empty_world : World :=
  mkWorld ∅ [] false [] (fun _ => None) (fun _ => None) (fun _ => None).

Definition bytes_of (r : Request) : list Byte.byte :=
  List.concat (chunks (Body r)).

(** The same request for another path. *)
Definition with_path (r : Request) (p : string) : Request :=
  mkRequest (RemoteAddr r) (Method r) p (Proto r) (Host r) (UserAgent r)
            (Body r).

(** The same request with another body. *)
Definition with_body (r : Request) (b : BodyStream) : Request :=
  mkRequest (RemoteAddr r) (Method r) (URL_Path r) (Proto r) (Host r)
            (UserAgent r) b.

(** The state after a list of events. *)
Definition emits (s : World) (evs : list Event) : World :=
  List.fold_left emit evs s.

(** The value of [err] when the loop of [openFile] reaches its condition
    for the [j]-th time, counting from zero. *)
Definition err_at (s : World) (r : Request) (j : nat) : option error :=
  match j with
  | O => None
  | S i => Os.stat_result s (candidate r i)
  end.

(** [k] is the first candidate whose [os.Stat] reports that it does not
    exist. *)
Definition first_free (s : World) (r : Request) (k : nat) : Prop :=
  Os.stat_result s (candidate r k) = Some ENOENT /\
  forall i, (i < k)%nat -> Os.stat_result s (candidate r i) <> Some ENOENT.

(** The state in which [openFile] opens the file: the lock is held and the
    candidates up to the first free one have been examined. *)
Definition probed (s : World) (r : Request) (k : nat) : World :=
  emits (emit (set_locked s true) EvLock) (stat_events s r (S k)).

(** Two states with the same failures of the file system. *)
Definition same_env (s s' : World) : Prop :=
  stat_fault s' = stat_fault s /\ open_fault s' = open_fault s /\
  size_limit s' = size_limit s.

(** The end of line that [fmt.Fprintln] adds. *)
Definition newline : string := String "010"%char EmptyString.

(** Requests for the examples: a POST whose body arrives in three chunks,
    one of them empty; the same request with a body that the client
    abandons; and a GET. *)
Definition sample_body : BodyStream :=
  mkBody [[Byte.x68; Byte.x69]; []; [Byte.x21]] None.

Definition sample_post : Request :=
  mkRequest "192.0.2.7:40112" "POST" "/up/load" "HTTP/1.1" "files.example"
            "curl/8" sample_body.

Definition broken_post : Request :=
  with_body sample_post
    (mkBody [[Byte.x68; Byte.x69]] (Some ErrUnexpectedEOF)).

Definition sample_get : Request :=
  mkRequest "192.0.2.7:40112" "GET" "/up/load" "HTTP/1.1" "files.example"
            "curl/8" (mkBody [] None).

(** An empty directory in which no file can be opened. *)
Definition readonly_world : World :=
  mkWorld ∅ [] false [] (fun _ => None) (fun _ => Some EACCES) (fun _ => None).

(** A request whose remote endpoint has a path separator in it. *)
Definition slash_endpoint_post : Request :=
  mkRequest "10.0.0.0/8:0" "POST" "/a/b/c" "HTTP/1.1" "files.example"
            "curl/8" sample_body.

(** A directory in which the first candidate of [sample_post] cannot be
    examined (permission denied), the second exists, and the others do
    not. *)
Definition guarded_world : World :=
  mkWorld {[ "192.0.2.7:40112_up_load_000001" := [Byte.x00] ]} [] false []
          (fun name =>
             if String.eqb name "192.0.2.7:40112_up_load_000000"
             then Some EACCES else None)
          (fun _ => None) (fun _ => None).

(** A start-up in which every system call succeeds, and the flags of a
    FastCGI server with a relative socket path. *)
Definition quiet_sys : Sys :=
  mkSys None (fun _ => None) (fun _ => None) (fun _ _ => None)
        (fun _ _ => None).

Definition fcgi_flags : Flags :=
  mkFlags false "run/fcgi.sock" "cert.pem" "key.pem" "posts" true.

(** A goroutine alone gets from one point to another in some number of
    steps. *)
Definition runs (s : World) (t : Thread) (s' : World) (t' : Thread) : Prop :=
  exists n, run n s t = (s', t').

(** The goroutine of a request that has just been accepted. *)
Definition spawn (r : Request) : Thread := mkThread r Http.newResponse AtStart.

(** Two requests in flight: the goroutine of the first has taken the lock
    and is at the condition of the loop, the goroutine of the second has
    reached [LOCK.Lock]. *)
Definition first_probing : World * Thread :=
  run 2 empty_world (spawn sample_post).

Definition second_waiting : World * Thread :=
  run 1 first_probing.1 (spawn sample_post).

(** Requests served one after the other, each with a response writer of its
    own. *)
Fixpoint handle_all (fuel : nat) (s : World) (rs : list Request)
    : option (World * list ResponseWriter) :=
  match rs with
  | [] => Some (s, [])
  | r :: rs' =>
      match handle fuel s Http.newResponse r with
      | None => None
      | Some (s1, w) =>
          match handle_all fuel s1 rs' with
          | None => None
          | Some (s2, ws) => Some (s2, w :: ws)
          end
      end
  end.

(** What is left of a run of requests: the entries of the directory and the
    statuses of the responses. *)
Definition summary (x : World * list ResponseWriter)
    : list (string * list Byte.byte) * list Z :=
  (map_to_list (files x.1), List.map status x.2).

(** The response of a request that has created a file: the success, or the
    failure of the transfer. *)
Definition created_file (w : ResponseWriter) : bool :=
  (status w =? Http.StatusOK) || String.eqb (written w) ("write" +:+ newline).

(** A directory with two files of other requests in it. *)
Definition busy_world : World :=
  mkWorld {[ "192.0.2.7:40112_up_load_000000" := [Byte.x61];
             "198.51.100.3:9_x_000001" := [Byte.x62; Byte.x63] ]}
          [] false [] (fun _ => None) (fun _ => None) (fun _ => None).

(** Reading a name back: what follows the last underscore of a name, and
    the sequence number that it denotes. *)
Fixpoint has_underscore (s : string) : bool :=
  match s with
  | EmptyString => false
  | String c s' => Ascii.eqb c "_" || has_underscore s'
  end.

Fixpoint after_last_underscore (s : string) : string :=
  match s with
  | EmptyString => EmptyString
  | String c s' =>
      if has_underscore s' then after_last_underscore s'
      else if Ascii.eqb c "_" then s' else s
  end.

Definition number_of_name (name : string) : option Z :=
  decimal_value (after_last_underscore name).



Definition http_fcgi_flags : Flags :=
  mkFlags true "127.0.0.1:9000" "cert.pem" "key.pem" "posts" true.


(** The file that a goroutine holds: from the successful [os.OpenFile] to the
    end of the transfer. *)
Definition owned (t : Thread) : option string :=
  match t_pc t with
  | AtUnlock (inl f) | AtOpened (inl f) | AtCopy f _ _ => Some (Name f)
  | _ => None
  end.

Definition owned_names (ts : list Thread) : list string := omap owned ts.

(** What holds for a goroutine at each point: its response is not begun
    before it returns, the file that it has created is empty until the
    transfer starts, and during the transfer the file holds the part of the
    body that has been read, which is as long as the count says. *)
Definition thread_ok (s : World) (t : Thread) : Prop :=
  match t_pc t with
  | AtUnlock (inl f) | AtOpened (inl f) =>
      files s !! Name f = Some [] /\ t_rw t = Http.newResponse
  | AtCopy f cs n =>
      exists done,
        bytes_of (t_req t) = done ++ concat cs /\
        files s !! Name f = Some done /\
        n = Z.of_nat (length done) /\ n <= MaxInt /\
        t_rw t = Http.newResponse
  | Done => True
  | _ => t_rw t = Http.newResponse
  end.

(** What a goroutine that has answered 200 leaves behind: a file of the
    directory with the whole body, which no goroutine in flight holds, and
    the length of the body as the response. *)
Definition stored (st : World * list Thread) (t : Thread) : Prop :=
  t_pc t = Done -> status (t_rw t) = Http.StatusOK ->
  exists name,
    files st.1 !! name = Some (bytes_of (t_req t)) /\
    (name ∉ owned_names st.2) /\
    written (t_rw t)
    = Fmt.fmt_v (Z.of_nat (length (bytes_of (t_req t)))).

(** No two goroutines hold the same file, each is as [thread_ok] says, and
    what has been answered with 200 is [stored]. *)
Definition isolated (st : World * list Thread) : Prop :=
  NoDup (owned_names st.2) /\ Forall (thread_ok st.1) st.2 /\
  Forall (stored st) st.2.

(** Samples of concurrent runs: a request served to its end in an empty
    directory; two requests in transfer at the same time, the second
    accepted when the first has written the first chunk of its body; and a
    request served to its end beside the files of [busy_world]. *)
Definition served_once : World * Thread :=
  run 20 empty_world (spawn sample_post).

Definition first_streaming : World * Thread :=
  run 8 empty_world (spawn sample_post).

Definition second_streaming : World * Thread :=
  run 8 first_streaming.1 (spawn (with_path sample_post "/other")).

Definition served_beside : World * Thread :=
  run 20 busy_world (spawn sample_post).

(** The goroutine is at the condition of the loop of [openFile], with the
    name made from its count, and the condition holds. *)
Definition probing (t : Thread) : Prop :=
  exists num err,
    t_pc t = AtCond (makeName (t_req t) num) num err /\
    keep_trying err = true.

(** No name of the request ends the loop: the [os.Stat] of each of them
    gives no error or an error other than "does not exist". *)
Definition never_free (s : World) (r : Request) : Prop :=
  forall num, keep_trying (Os.stat_result s (makeName r num)) = true.

(** An empty directory in which every [os.Stat] fails with [EACCES], as
    when the directory has lost its search permission after the start. *)
Definition unsearchable_world : World :=
  mkWorld ∅ [] false [] (fun _ => Some EACCES) (fun _ => None) (fun _ => None).

(** A request that has entered the loop there, the same request fifty
    steps later, and a second request that has arrived in between. *)
Definition wedged_first : World * Thread :=
  run 3 unsearchable_world (spawn sample_post).

Definition wedged_later : World * Thread :=
  run 50 wedged_first.1 wedged_first.2.

Definition wedged_waiting : World * Thread :=
  run 5 wedged_later.1 (spawn (with_path sample_post "/other")).

(** The longest name of a directory entry, and an empty directory of a
    usual file system, in which [os.Stat] and [os.OpenFile] of a longer
    name fail with [ENAMETOOLONG]. *)
Definition NAME_MAX : nat := 255.

Definition long_name_fault (name : string) : option error :=
  if (NAME_MAX <? String.length name)%nat then Some ENAMETOOLONG else None.

Definition bounded_world : World :=
  mkWorld ∅ [] false [] long_name_fault long_name_fault (fun _ => None).

Fixpoint replicate_char (n : nat) (c : ascii) : string :=
  match n with
  | O => EmptyString
  | S n' => String c (replicate_char n' c)
  end.

(** A POST request with a path of 300 bytes, its goroutine when it has
    entered the loop of [openFile], and the goroutine of a later request
    with a short path, which has reached [LOCK.Lock]. *)
Definition long_post : Request :=
  with_path sample_post (String "/" (replicate_char 299 "a")).

Definition long_probing : World * Thread :=
  run 3 bounded_world (spawn long_post).

Definition short_waiting : World * Thread :=
  run 5 long_probing.1 (spawn sample_post).

(** * Properties *)

(** ** Integers and their decimal form *)

(** [filepath.Clean] on the examples of its documentation and on paths that
    requests can have. *)
Example Clean_examples :
  Filepath.Clean "/a/b" = "/a/b"%string /\
  Filepath.Clean "//x" = "/x"%string /\
  Filepath.Clean "/./x" = "/x"%string /\
  Filepath.Clean "/" = "/"%string /\
  Filepath.Clean "" = "."%string /\
  Filepath.Clean "/a/../../b/" = "/b"%string /\
  Filepath.Clean "a/../../b/./c//" = "../b/c"%string /\
  Filepath.Clean "abc/def/../.." = "."%string /\
  Filepath.Clean "/..a/.b/..." = "/..a/.b/..."%string.
Proof. repeat split; reflexivity. Qed.

(** The verbs [%06v] and [%v]. *)
Example fmt_examples :
  Fmt.fmt_06v 0 = "000000"%string /\
  Fmt.fmt_06v 42 = "000042"%string /\
  Fmt.fmt_06v 999999 = "999999"%string /\
  Fmt.fmt_06v 1234567 = "1234567"%string /\
  Fmt.fmt_06v (-5) = "-00005"%string /\
  Fmt.fmt_v 0 = "0"%string /\
  Fmt.fmt_v 10485760 = "10485760"%string /\
  Fmt.fmt_v MinInt = "-9223372036854775808"%string.
Proof. repeat split; reflexivity. Qed.

Lemma wrap_int_id x : MinInt <= x <= MaxInt -> wrap_int x = x.
Proof.
  unfold wrap_int, MinInt, MaxInt, intSize. intros H.
  rewrite Z.mod_small; lia.
Qed.

Lemma wrap_int_range x : MinInt <= wrap_int x <= MaxInt.
Proof.
  unfold wrap_int, MinInt, MaxInt, intSize.
  pose proof (Z.mod_pos_bound (x + 2 ^ (64 - 1)) (2 ^ 64) ltac:(lia)). lia.
Qed.

Lemma int_add_small a b :
  MinInt <= a + b <= MaxInt -> int_add a b = a + b.
Proof. apply wrap_int_id. Qed.

Lemma int_add_1_neq n : MinInt <= n <= MaxInt -> int_add n 1 <> n.
Proof.
  intros H. destruct (decide (n = MaxInt)) as [->|Hne].
  - vm_compute. discriminate.
  - rewrite int_add_small; lia.
Qed.

Lemma nth_num_range k : MinInt <= nth_num k <= MaxInt.
Proof.
  destruct k as [|k]; simpl.
  - unfold MinInt, MaxInt, intSize. lia.
  - apply wrap_int_range.
Qed.

Lemma nth_num_small k : Z.of_nat k <= MaxInt -> nth_num k = Z.of_nat k.
Proof.
  induction k as [|k IH]; intros H; [reflexivity|].
  cbn [nth_num]. rewrite IH by lia. rewrite int_add_small; [lia|].
  unfold MinInt, MaxInt, intSize in *. lia.
Qed.

Lemma digit_char_value d :
  0 <= d <= 9 -> Z.of_nat (nat_of_ascii (Fmt.digit_char d)) - 48 = d.
Proof.
  intros H. unfold Fmt.digit_char.
  rewrite nat_ascii_embedding by lia. lia.
Qed.

Lemma digits_value_digit d s acc :
  0 <= d <= 9 ->
  digits_value (String (Fmt.digit_char d) s) acc = digits_value s (acc * 10 + d).
Proof.
  intros H. cbn [digits_value]. rewrite digit_char_value by done.
  destruct (Z.leb_spec 0 d); [|lia]. destruct (Z.leb_spec d 9); [|lia].
  reflexivity.
Qed.

Lemma fmt_digits_value fuel : forall u acc,
  0 <= u < 10 ^ Z.of_nat fuel ->
  digits_value (Fmt.fmt_digits fuel u acc) 0 = digits_value acc u.
Proof.
  induction fuel as [|fuel IH]; intros u acc Hu.
  - simpl in *. assert (u = 0) as -> by lia. reflexivity.
  - cbn [Fmt.fmt_digits]. destruct (Z.ltb_spec u 10) as [Hlt|Hge].
    + rewrite digits_value_digit by lia. reflexivity.
    + rewrite IH.
      * pose proof (Z.mod_pos_bound u 10 ltac:(lia)).
        rewrite digits_value_digit by lia.
        f_equal. pose proof (Z.div_mod u 10). lia.
      * rewrite Nat2Z.inj_succ, Z.pow_succ_r in Hu by lia.
        split; [apply Z.div_pos; lia|].
        apply Z.div_lt_upper_bound; lia.
Qed.

Lemma fmt_digits_length fuel : forall k u acc,
  (1 <= k <= fuel)%nat -> 0 <= u < 10 ^ Z.of_nat k ->
  (1 + String.length acc <= String.length (Fmt.fmt_digits fuel u acc)
   <= k + String.length acc)%nat.
Proof.
  induction fuel as [|fuel IH]; intros k u acc Hk Hu; [lia|].
  cbn [Fmt.fmt_digits]. destruct (Z.ltb_spec u 10) as [Hlt|Hge].
  - simpl. lia.
  - destruct k as [|[|k]]; [lia| simpl in Hu; lia |].
    specialize (IH (S k) (u / 10)
                  (String (Fmt.digit_char (u mod 10)) acc)).
    simpl String.length in IH.
    assert (0 <= u / 10 < 10 ^ Z.of_nat (S k)) as Hdiv.
    { rewrite (Nat2Z.inj_succ (S k)), Z.pow_succ_r in Hu by lia.
      split; [apply Z.div_pos; lia|].
      apply Z.div_lt_upper_bound; lia. }
    specialize (IH ltac:(lia) Hdiv). lia.
Qed.

Lemma fmt_digits_head fuel : forall u acc,
  0 <= u ->
  exists d rest, 0 <= d <= 9 /\
    Fmt.fmt_digits (S fuel) u acc = String (Fmt.digit_char d) rest.
Proof.
  induction fuel as [|fuel IH]; intros u acc Hu.
  - cbn [Fmt.fmt_digits]. destruct (Z.ltb_spec u 10).
    + exists u, acc. split; [lia|done].
    + exists (u mod 10), acc.
      pose proof (Z.mod_pos_bound u 10 ltac:(lia)). split; [lia|done].
  - remember (S fuel) as f. cbn [Fmt.fmt_digits].
    destruct (Z.ltb_spec u 10).
    + exists u, acc. split; [lia|done].
    + subst f. apply IH. apply Z.div_pos; lia.
Qed.

Lemma string_length_app (a b : string) :
  String.length (a +:+ b) = (String.length a + String.length b)%nat.
Proof. induction a as [|c a IH]; simpl; [done|]. by rewrite IH. Qed.

Lemma zeros_length n : String.length (Fmt.zeros n) = n.
Proof. induction n as [|n IH]; simpl; [done|]. by rewrite IH. Qed.

Lemma digits_value_zeros n s :
  digits_value (Fmt.zeros n +:+ s) 0 = digits_value s 0.
Proof. induction n as [|n IH]; simpl; [done|]. exact IH. Qed.

Lemma decimal_value_digit_first d s :
  0 <= d <= 9 ->
  decimal_value (String (Fmt.digit_char d) s)
  = digits_value (String (Fmt.digit_char d) s) 0.
Proof.
  intros H.
  assert (d = 0 \/ d = 1 \/ d = 2 \/ d = 3 \/ d = 4 \/ d = 5 \/ d = 6 \/
          d = 7 \/ d = 8 \/ d = 9) as Hd by lia.
  repeat destruct Hd as [->|Hd]; try subst d; reflexivity.
Qed.

(** Six digits exactly, with the value of the number, below a million. *)
Lemma fmt_06v_six n :
  0 <= n < 1000000 ->
  String.length (Fmt.fmt_06v n) = 6%nat /\
  digits_value (Fmt.fmt_06v n) 0 = Some n.
Proof.
  intros H. unfold Fmt.fmt_06v, Fmt.fmtInteger.
  destruct (Z.ltb_spec n 0); [lia|]. rewrite Z.abs_eq by lia.
  pose proof (fmt_digits_length 20 6 n EmptyString ltac:(lia) ltac:(simpl; lia))
    as Hlen.
  cbn [String.length] in Hlen. split.
  - rewrite string_length_app, zeros_length. lia.
  - rewrite digits_value_zeros, fmt_digits_value; [done|]. simpl. lia.
Qed.

(** [%v] prints the decimal representation of a number that is not
    negative. *)
Lemma fmt_v_decimal n :
  0 <= n <= MaxInt -> decimal_value (Fmt.fmt_v n) = Some n.
Proof.
  intros H. unfold Fmt.fmt_v, Fmt.fmtInteger.
  destruct (Z.ltb_spec n 0); [lia|]. rewrite Z.abs_eq by lia.
  simpl Fmt.zeros. change (EmptyString +:+ ?s) with s.
  destruct (fmt_digits_head 19 n EmptyString ltac:(lia)) as (d & rest & Hd & Heq).
  pose proof (fmt_digits_value 20 n EmptyString) as Hv.
  rewrite Heq in *. rewrite decimal_value_digit_first by done.
  rewrite Hv; [done|]. unfold MaxInt, intSize in H. simpl. lia.
Qed.

(** The sequence number can be read back from what [%06v] prints. *)
Lemma fmt_06v_decimal n :
  MinInt <= n <= MaxInt -> decimal_value (Fmt.fmt_06v n) = Some n.
Proof.
  intros H. unfold Fmt.fmt_06v, Fmt.fmtInteger.
  assert (0 <= Z.abs n < 10 ^ Z.of_nat 20) as Habs.
  { unfold MinInt, MaxInt, intSize in H. simpl. lia. }
  destruct (Z.ltb_spec n 0) as [Hneg|Hpos].
  - cbn [decimal_value]. rewrite digits_value_zeros, fmt_digits_value by done.
    simpl. f_equal. lia.
  - rewrite Z.abs_eq in * by lia.
    destruct (fmt_digits_head 19 n EmptyString ltac:(lia))
      as (d & rest & Hd & Heq).
    pose proof (fmt_digits_value 20 n EmptyString Habs) as Hv.
    pose proof (fmt_digits_length 20 20 n EmptyString ltac:(lia) Habs) as Hl.
    destruct (6 - String.length (Fmt.fmt_digits 20 n ""))%nat eqn:Hz.
    + simpl Fmt.zeros. change (EmptyString +:+ ?s) with s.
      rewrite Heq in *. by rewrite decimal_value_digit_first.
    + change (Fmt.zeros (S n0)) with (String (Fmt.digit_char 0) (Fmt.zeros n0)).
      change (String ?c ?a +:+ ?b) with (String c (a +:+ b)).
      rewrite decimal_value_digit_first by lia.
      change (String (Fmt.digit_char 0) (Fmt.zeros n0 +:+ ?b))
        with (Fmt.zeros (S n0) +:+ b).
      by rewrite digits_value_zeros.
Qed.

Lemma fmt_06v_inj a b :
  MinInt <= a <= MaxInt -> MinInt <= b <= MaxInt ->
  Fmt.fmt_06v a = Fmt.fmt_06v b -> a = b.
Proof.
  intros Ha Hb Heq. apply fmt_06v_decimal in Ha, Hb.
  rewrite Heq in Ha. congruence.
Qed.

(** ** Names *)

Lemma string_app_cons c (a b : string) :
  String c a +:+ b = String c (a +:+ b).
Proof. reflexivity. Qed.

Lemma string_app_assoc (a b c : string) : (a +:+ b) +:+ c = a +:+ (b +:+ c).
Proof.
  induction a as [|x a IH]; [done|]. rewrite !string_app_cons. by rewrite IH.
Qed.

Lemma string_app_inv_head (a b c : string) : a +:+ b = a +:+ c -> b = c.
Proof.
  induction a as [|x a IH]; [done|]. rewrite !string_app_cons.
  intros [=]. auto.
Qed.

Lemma no_slash_app a b : no_slash (a +:+ b) = no_slash a && no_slash b.
Proof.
  induction a as [|c a IH]; [done|]. rewrite string_app_cons.
  cbn [no_slash]. rewrite IH. by rewrite andb_assoc.
Qed.

Lemma no_slash_flatten s : no_slash (flatten s) = true.
Proof.
  induction s as [|c s IH]; simpl; [done|]. rewrite IH.
  destruct (Ascii.eqb_spec c "/") as [->|Hne]; [done|].
  rewrite andb_true_r. apply negb_true_iff. by apply Ascii.eqb_neq.
Qed.

(** Replacing every ["/"] by ["_"] flattens the string. *)
Lemma Replace_flatten s : forall n,
  n < 0 -> Strings.Replace s "/" "_" n = flatten s.
Proof.
  induction s as [|c s IH]; intros n Hn; simpl; [done|].
  destruct (Z.eqb_spec n 0); [lia|].
  destruct (Ascii.eqb c "/"); rewrite IH by lia; done.
Qed.

(** [TrimPrefix s "/"] strips one leading separator, and only one. *)
Lemma TrimPrefix_slash s :
  Strings.TrimPrefix s "/" =
  match s with
  | String "/" s' => s'
  | _ => s
  end.
Proof.
  destruct s as [|c s]; [done|]. unfold Strings.TrimPrefix. simpl.
  rewrite andb_true_r.
  destruct (Ascii.eqb_spec c "/") as [->|Hne]; [done|].
  destruct c as [[] [] [] [] [] [] [] []]; try reflexivity.
  exfalso. by apply Hne.
Qed.

Lemma digit_char_no_slash d :
  0 <= d <= 9 -> Ascii.eqb (Fmt.digit_char d) "/" = false.
Proof.
  intros H.
  assert (d = 0 \/ d = 1 \/ d = 2 \/ d = 3 \/ d = 4 \/ d = 5 \/ d = 6 \/
          d = 7 \/ d = 8 \/ d = 9) as Hd by lia.
  repeat destruct Hd as [->|Hd]; try subst d; reflexivity.
Qed.

Lemma no_slash_fmt_digits fuel : forall u acc,
  0 <= u -> no_slash (Fmt.fmt_digits fuel u acc) = no_slash acc.
Proof.
  induction fuel as [|fuel IH]; intros u acc Hu; [done|].
  cbn [Fmt.fmt_digits]. destruct (Z.ltb_spec u 10).
  - cbn [no_slash]. by rewrite digit_char_no_slash by lia.
  - rewrite IH by (apply Z.div_pos; lia). cbn [no_slash].
    pose proof (Z.mod_pos_bound u 10 ltac:(lia)).
    by rewrite digit_char_no_slash by lia.
Qed.

Lemma no_slash_zeros n : no_slash (Fmt.zeros n) = true.
Proof. induction n as [|n IH]; simpl; done. Qed.

Lemma no_slash_fmt_06v n : no_slash (Fmt.fmt_06v n) = true.
Proof.
  unfold Fmt.fmt_06v, Fmt.fmtInteger.
  assert (no_slash (Fmt.fmt_digits 20 (Z.abs n) "") = true) as Hd.
  { rewrite no_slash_fmt_digits by lia. done. }
  destruct (n <? 0); cbn [no_slash];
    rewrite no_slash_app, no_slash_zeros, Hd; done.
Qed.

(** The name as the result of flattening. *)
Lemma makeName_eq r n :
  makeName r n =
  RemoteAddr r +:+ "_" +:+
  flatten (Strings.TrimPrefix (Filepath.Clean (URL_Path r)) "/")
  +:+ "_" +:+ Fmt.fmt_06v n.
Proof. unfold makeName. by rewrite Replace_flatten by lia. Qed.

Lemma makeName_inj_num r a b :
  MinInt <= a <= MaxInt -> MinInt <= b <= MaxInt ->
  makeName r a = makeName r b -> a = b.
Proof.
  intros Ha Hb Heq. unfold makeName in Heq.
  do 4 apply string_app_inv_head in Heq.
  by apply fmt_06v_inj.
Qed.

Lemma candidate_succ_neq r k : candidate r (S k) <> candidate r k.
Proof.
  unfold candidate. intros Heq.
  apply makeName_inj_num in Heq; try apply nth_num_range.
  cbn [nth_num] in Heq. by apply int_add_1_neq in Heq; [|apply nth_num_range].
Qed.

(** ** The state *)

Lemma emits_app s evs1 evs2 : emits s (evs1 ++ evs2) = emits (emits s evs1) evs2.
Proof. unfold emits. apply fold_left_app. Qed.

Lemma emits_fields s evs :
  files (emits s evs) = files s /\ handles (emits s evs) = handles s /\
  locked (emits s evs) = locked s /\ trace (emits s evs) = trace s ++ evs /\
  stat_fault (emits s evs) = stat_fault s /\
  open_fault (emits s evs) = open_fault s /\
  size_limit (emits s evs) = size_limit s.
Proof.
  revert s. induction evs as [|e evs IH]; intros s.
  - cbn. by rewrite app_nil_r.
  - change (emits s (e :: evs)) with (emits (emit s e) evs).
    destruct (IH (emit s e)) as (-> & -> & -> & -> & -> & -> & ->).
    cbn. by rewrite <- app_assoc.
Qed.

Lemma stat_result_emits s evs name :
  Os.stat_result (emits s evs) name = Os.stat_result s name.
Proof.
  destruct (emits_fields s evs) as (Hf & _ & _ & _ & Hs & _ & _).
  unfold Os.stat_result. by rewrite Hf, Hs.
Qed.

Lemma open_result_emits s evs name :
  Os.open_result (emits s evs) name = Os.open_result s name.
Proof.
  destruct (emits_fields s evs) as (Hf & _ & _ & _ & _ & Ho & _).
  unfold Os.open_result. by rewrite Hf, Ho.
Qed.

Lemma stat_events_S s r n :
  stat_events s r (S n) =
  stat_events s r n ++
  [EvStat (candidate r n) (Os.stat_result s (candidate r n))].
Proof. unfold stat_events. by rewrite seq_S, map_app. Qed.

(** ** The loop of [openFile] *)

Lemma keep_trying_false err : keep_trying err = false <-> err = Some ENOENT.
Proof.
  destruct err as [[]|]; cbn; split; intros H; try done; discriminate.
Qed.

Lemma keep_trying_err_at s r j :
  (forall i, (i < j)%nat -> Os.stat_result s (candidate r i) <> Some ENOENT) ->
  keep_trying (err_at s r j) = true.
Proof.
  intros H. destruct j as [|i]; [done|]. cbn [err_at].
  destruct (keep_trying _) eqn:Hk; [done|].
  apply keep_trying_false in Hk. by apply H in Hk; [|lia].
Qed.

Lemma probe_stop fuel s r name num err :
  keep_trying err = false -> probe fuel s r name num err = Some (s, name).
Proof. intros H. destruct fuel; cbn [probe]; by rewrite H. Qed.

(** One iteration of the loop takes the [j]-th state of the loop to the
    next one. *)
Lemma probe_step fuel s r j :
  keep_trying (err_at s r j) = true ->
  probe (S fuel) (emits s (stat_events s r j)) r
        (candidate r j) (nth_num j) (err_at s r j)
  = probe fuel (emits s (stat_events s r (S j))) r
          (candidate r (S j)) (nth_num (S j)) (err_at s r (S j)).
Proof.
  intros H. cbn [probe]. rewrite H. unfold Os.Stat.
  rewrite stat_result_emits, stat_events_S, emits_app. reflexivity.
Qed.

(** When the [k]-th candidate is the first that does not exist, the loop
    ends after [k + 1] iterations, with the name of candidate [k + 1]. *)
Lemma probe_first_free s r k :
  first_free s r k ->
  forall d j fuel, (j + d = S k)%nat ->
  probe (d + fuel) (emits s (stat_events s r j)) r
        (candidate r j) (nth_num j) (err_at s r j)
  = Some (emits s (stat_events s r (S k)), candidate r (S k)).
Proof.
  intros [Hk Hlt]. induction d as [|d IH]; intros j fuel Hj.
  - assert (j = S k) as -> by lia. apply probe_stop.
    apply keep_trying_false. exact Hk.
  - change (S d + fuel)%nat with (S (d + fuel)).
    rewrite probe_step.
    + apply IH. lia.
    + apply keep_trying_err_at. intros i Hi. apply Hlt. lia.
Qed.

(** As long as no candidate is reported not to exist, the loop goes on. *)
Lemma probe_goes_on s r n :
  (forall i, (i < n)%nat -> Os.stat_result s (candidate r i) <> Some ENOENT) ->
  forall fuel j, (j + fuel <= n)%nat ->
  probe fuel (emits s (stat_events s r j)) r
        (candidate r j) (nth_num j) (err_at s r j) = None.
Proof.
  intros Hn. induction fuel as [|fuel IH]; intros j Hj.
  - cbn [probe]. rewrite keep_trying_err_at; [done|].
    intros i Hi. apply Hn. lia.
  - rewrite probe_step.
    + apply IH. lia.
    + apply keep_trying_err_at. intros i Hi. apply Hn. lia.
Qed.

Lemma first_free_below s r n :
  (forall i, (i < n)%nat -> Os.stat_result s (candidate r i) <> Some ENOENT) \/
  exists k, (k < n)%nat /\ first_free s r k.
Proof.
  induction n as [|n [IH|(k & Hk & Hff)]].
  - left. intros i Hi. lia.
  - destruct (decide (Os.stat_result s (candidate r n) = Some ENOENT))
      as [Hn|Hn].
    + right. exists n. split; [lia|]. split; [done|]. exact IH.
    + left. intros i Hi. destruct (decide (i = n)) as [->|Hne]; [done|].
      apply IH. lia.
  - right. exists k. split; [lia|done].
Qed.

Lemma first_free_least s r k :
  Os.stat_result s (candidate r k) = Some ENOENT ->
  exists k', (k' <= k)%nat /\ first_free s r k'.
Proof.
  intros Hk. destruct (first_free_below s r (S k)) as [Hno|(k' & Hlt & Hff)].
  - by apply (Hno k) in Hk; [|lia].
  - exists k'. split; [lia|done].
Qed.

Lemma first_free_unique s r k1 k2 :
  first_free s r k1 -> first_free s r k2 -> k1 = k2.
Proof.
  intros [H1 L1] [H2 L2].
  destruct (Nat.lt_trichotomy k1 k2) as [H|[H|H]]; [|done|].
  - by apply L2 in H.
  - by apply L1 in H.
Qed.

(** What [openFile] does: it opens the candidate after the first one that
    does not exist. *)
Lemma openFile_spec fuel s r k :
  locked s = false -> first_free s r k -> (k < fuel)%nat ->
  openFile fuel s r =
  let '(s3, res) := Os.OpenFile (probed s r k) (candidate r (S k)) in
  Some (LOCK_Unlock s3, res).
Proof.
  intros Hl Hff Hk. unfold openFile, LOCK_Lock. rewrite Hl.
  set (s1 := emit (set_locked s true) EvLock).
  assert (first_free s1 r k) as Hff1 by exact Hff.
  pose proof (probe_first_free s1 r k Hff1 (S k) 0%nat (fuel - S k)%nat
                ltac:(lia)) as Hp.
  replace (S k + (fuel - S k))%nat with fuel in Hp by lia.
  change (emits s1 (stat_events s1 r 0)) with s1 in Hp.
  change (candidate r 0) with (makeName r 0) in Hp.
  change (nth_num 0) with 0 in Hp. change (err_at s1 r 0) with (@None error) in Hp.
  rewrite Hp. reflexivity.
Qed.

Lemma openFile_None fuel s r :
  locked s = false ->
  (forall i, (i < fuel)%nat -> Os.stat_result s (candidate r i) <> Some ENOENT) ->
  openFile fuel s r = None.
Proof.
  intros Hl Hn. unfold openFile, LOCK_Lock. rewrite Hl.
  set (s1 := emit (set_locked s true) EvLock).
  pose proof (probe_goes_on s1 r fuel Hn fuel 0%nat ltac:(lia)) as Hp.
  change (emits s1 (stat_events s1 r 0)) with s1 in Hp.
  change (candidate r 0) with (makeName r 0) in Hp.
  change (nth_num 0) with 0 in Hp. change (err_at s1 r 0) with (@None error) in Hp.
  by rewrite Hp.
Qed.

(** ** Opening and writing *)

(** The loop of [io.Copy] in terms of [Read]: one iteration for the chunk
    that [Read] returns, and the end of the loop for its error. *)
Lemma copy_loop_Read s dst b n :
  Io.copy_loop s dst (chunks b) (body_err b) n =
  let '(c, er, b') := Io.Read b in
  match er with
  | Some e =>
      (emit s (EvRead 0 (Some e)), n, if decide (e = EOF) then None else Some e)
  | None =>
      let s0 := emit s (EvRead (length c) None) in
      if (0 <? length c)%nat then
        let '(s1, nw, ew) := Os.Write s0 dst c in
        let n1 := int_add n (Z.of_nat nw) in
        match ew with
        | Some e => (s1, n1, Some e)
        | None =>
            if (nw =? length c)%nat
            then Io.copy_loop s1 dst (chunks b') (body_err b') n1
            else (s1, n1, Some ErrShortWrite)
        end
      else Io.copy_loop s0 dst (chunks b') (body_err b') n
  end.
Proof. destruct b as [[|c cs] e]; reflexivity. Qed.

Lemma same_env_refl s : same_env s s.
Proof. by repeat split. Qed.

Lemma same_env_trans s1 s2 s3 :
  same_env s1 s2 -> same_env s2 s3 -> same_env s1 s3.
Proof.
  intros (A1 & B1 & C1) (A2 & B2 & C2). repeat split; congruence.
Qed.

Lemma same_env_emits s evs : same_env s (emits s evs).
Proof.
  destruct (emits_fields s evs) as (_ & _ & _ & _ & A & B & C). by repeat split.
Qed.

Lemma limit_le s name : Os.limit s name <= MaxInt.
Proof.
  unfold Os.limit, MaxFileSize. destruct (size_limit s name); lia.
Qed.

Lemma OpenFile_inl s name s' f :
  Os.OpenFile s name = (s', inl f) ->
  Name f = name /\ files s !! name = None /\ open_fault s name = None /\
  files s' = <[name := []]> (files s) /\
  handles s' = name :: handles s /\ locked s' = locked s /\
  trace s' = trace s ++ [EvOpenFile name None] /\ same_env s s'.
Proof.
  unfold Os.OpenFile, Os.open_result.
  destruct (open_fault s name) eqn:Hof; [discriminate|].
  destruct (files s !! name) eqn:Hf; [discriminate|].
  intros [= <- <-]. cbn. by repeat split.
Qed.

Lemma OpenFile_inr s name s' e :
  Os.OpenFile s name = (s', inr e) ->
  Os.open_result s name = Some e /\ s' = emit s (EvOpenFile name (Some e)).
Proof.
  unfold Os.OpenFile. destruct (Os.open_result s name); [|discriminate].
  by intros [= <- <-].
Qed.

(** [openFile] returns exactly when some candidate is reported not to exist,
    and then it has tried to open the candidate after the first such one. *)
Lemma openFile_inv fuel s r s1 res :
  openFile fuel s r = Some (s1, res) ->
  locked s = false /\
  exists k s3, first_free s r k /\ (k < fuel)%nat /\
    Os.OpenFile (probed s r k) (candidate r (S k)) = (s3, res) /\
    s1 = LOCK_Unlock s3.
Proof.
  intros H. assert (locked s = false) as Hl.
  { unfold openFile, LOCK_Lock in H. by destruct (locked s). }
  split; [done|].
  destruct (first_free_below s r fuel) as [Hno|(k & Hk & Hff)].
  - by rewrite openFile_None in H.
  - rewrite (openFile_spec fuel s r k Hl Hff Hk) in H.
    destruct (Os.OpenFile _ _) as [s3 res'] eqn:Ho.
    injection H as <- <-. by exists k, s3.
Qed.

Lemma probed_fields s r k :
  files (probed s r k) = files s /\ handles (probed s r k) = handles s /\
  locked (probed s r k) = true /\
  trace (probed s r k) = trace s ++ EvLock :: stat_events s r (S k) /\
  same_env s (probed s r k).
Proof.
  unfold probed.
  destruct (emits_fields (emit (set_locked s true) EvLock)
              (stat_events s r (S k))) as (-> & -> & -> & -> & A & B & C).
  cbn. rewrite <- app_assoc. by repeat split.
Qed.

(** A successful [openFile] has created an empty file under a name that
    was not in the directory, and has left the lock free. *)
Lemma openFile_inl fuel s r s1 f :
  openFile fuel s r = Some (s1, inl f) ->
  files s !! Name f = None /\
  files s1 = <[Name f := []]> (files s) /\
  handles s1 = Name f :: handles s /\
  locked s1 = false /\ same_env s s1 /\
  exists k, first_free s r k /\ (k < fuel)%nat /\
    Name f = candidate r (S k) /\ open_fault s (Name f) = None.
Proof.
  intros H. apply openFile_inv in H as (Hl & k & s3 & Hff & Hk & Ho & ->).
  apply OpenFile_inl in Ho as (Hn & Hnone & Hof & Hfiles & Hh & _ & _ & He).
  destruct (probed_fields s r k) as (Pf & Ph & _ & _ & Pe).
  assert (same_env s (LOCK_Unlock s3)) as Henv.
  { apply (same_env_trans _ _ _ Pe). apply (same_env_trans _ _ _ He).
    by repeat split. }
  rewrite Hn. cbn [LOCK_Unlock emit set_locked files handles locked].
  rewrite Hfiles, Hh, Pf, Ph in *.
  split_and!; try done. exists k. split_and!; try done.
  destruct Pe as (_ & <- & _). exact Hof.
Qed.

(** A failed [openFile] has changed neither the directory nor the open
    files, and has left the lock free. *)
Lemma openFile_inr fuel s r s1 e :
  openFile fuel s r = Some (s1, inr e) ->
  files s1 = files s /\ handles s1 = handles s /\ locked s1 = false /\
  same_env s s1.
Proof.
  intros H. apply openFile_inv in H as (Hl & k & s3 & Hff & Hk & Ho & ->).
  apply OpenFile_inr in Ho as (_ & ->).
  destruct (probed_fields s r k) as (Pf & Ph & _ & _ & Pe).
  cbn. by split_and!.
Qed.

(** A write appends the bytes that it reports to the file, and nothing
    else changes. *)
Lemma Write_spec s f b s' nw ew cur :
  files s !! Name f = Some cur ->
  Os.Write s f b = (s', nw, ew) ->
  (nw <= length b)%nat /\
  (ew = None -> nw = length b) /\
  (nw = 0%nat \/ Z.of_nat (length cur + nw) <= MaxInt) /\
  files s' = <[Name f := cur ++ take nw b]> (files s) /\
  handles s' = handles s /\ locked s' = locked s /\ same_env s s'.
Proof.
  intros Hcur. unfold Os.Write, Os.content. rewrite Hcur.
  change (default [] (Some cur)) with cur. cbv zeta.
  pose proof (limit_le s (Name f)) as Hlim.
  destruct (Z.of_nat (length b) <=? _) eqn:Hfit.
  - apply Z.leb_le in Hfit. intros [= <- <- <-]. rewrite firstn_all.
    split_and!; try done. right. lia.
  - apply Z.leb_gt in Hfit. intros [= <- <- <-].
    split_and!; try done; lia.
Qed.

(** What [io.Copy] leaves behind, whether it fails or not: the file holds
    what it held and then a prefix of the body, the count is the length of
    that prefix, and the prefix is the whole body when there is no error. *)
Lemma copy_loop_spec f e cs : forall s n s' n' err cur,
  files s !! Name f = Some cur ->
  0 <= n <= Z.of_nat (length cur) -> n <= MaxInt ->
  Io.copy_loop s f cs e n = (s', n', err) ->
  exists k : nat,
    (k <= length (concat cs))%nat /\ n' = n + Z.of_nat k /\ n' <= MaxInt /\
    files s' = <[Name f := cur ++ take k (concat cs)]> (files s) /\
    (err = None -> k = length (concat cs)) /\
    handles s' = handles s /\ locked s' = locked s /\ same_env s s'.
Proof.
  induction cs as [|c cs IH]; intros s n s' n' err cur Hcur Hn Hmax.
  - cbn [Io.copy_loop]. intros [= <- <- <-]. exists 0%nat. cbn.
    rewrite app_nil_r, insert_id by done.
    split_and!; try done; try lia.
  - cbn [Io.copy_loop]. destruct (Nat.ltb_spec 0 (length c)) as [Hpos|Hz].
    + set (s0 := emit s (EvRead (length c) None)).
      destruct (Os.Write s0 f c) as [[s1 nw] ew] eqn:Hw.
      apply (Write_spec s0 f c s1 nw ew cur Hcur) in Hw
        as (Hle & Hall & Hbound & Hfiles & Hh & Hl & He).
      assert (int_add n (Z.of_nat nw) = n + Z.of_nat nw) as Hadd.
      { apply int_add_small. unfold MinInt, intSize. lia. }
      rewrite Hadd.
      assert (files s1 !! Name f = Some (cur ++ take nw c)) as Hcur1.
      { rewrite Hfiles. apply lookup_insert_eq. }
      assert (forall k, (k <= length c)%nat ->
                take k (concat (c :: cs)) = take k c) as Hpre.
      { intros k Hk. cbn [concat]. by rewrite take_app_le. }
      assert (length (concat (c :: cs))
              = (length c + length (concat cs))%nat) as Hlen.
      { cbn [concat]. apply length_app. }
      destruct ew as [e'|].
      * intros [= <- <- <-]. exists nw.
        rewrite Hpre by done. split_and!; try done; lia.
      * specialize (Hall eq_refl). subst nw. rewrite Nat.eqb_refl.
        rewrite firstn_all in Hcur1, Hfiles.
        intros Hrec.
        apply (IH s1 _ s' n' err (cur ++ c) Hcur1) in Hrec
          as (k & Hk & Hn' & Hmax' & Hfiles' & Hnone & Hh' & Hl' & He');
          [|rewrite length_app; lia|lia].
        exists (length c + k)%nat.
        split_and!; try lia; try congruence.
        -- rewrite Hfiles', Hfiles. cbn [concat files emit].
           rewrite insert_insert_eq, take_app_ge by lia.
           replace (length c + k - length c)%nat with k by lia.
           by rewrite <- app_assoc.
        -- intros ->. rewrite Hnone by done. lia.
        -- by rewrite Hh', Hh.
        -- by rewrite Hl', Hl.
        -- apply (same_env_trans _ s1); [|done].
           apply (same_env_trans _ s0); [by repeat split|done].
    + assert (c = []) as -> by (destruct c; [done|cbn in Hz; lia]).
      intros Hrec.
      apply (IH (emit s (EvRead (length []) None)) n s' n' err cur Hcur Hn Hmax)
        in Hrec.
      exact Hrec.
Qed.

(** [io.Copy] into a file that has just been created. *)
Lemma Copy_new_file s f body s' n err :
  files s !! Name f = Some [] ->
  Io.Copy s f body = (s', n, err) ->
  exists k : nat,
    (k <= length (concat (chunks body)))%nat /\ n = Z.of_nat k /\
    n <= MaxInt /\
    files s' = <[Name f := take k (concat (chunks body))]> (files s) /\
    (err = None -> k = length (concat (chunks body))) /\
    handles s' = handles s /\ locked s' = locked s /\ same_env s s'.
Proof.
  intros Hnew Hc. unfold Io.Copy in Hc.
  apply (copy_loop_spec f _ _ s 0 s' n err [] Hnew) in Hc
    as (k & Hk & Hn & Hmax & Hfiles & Hnone & Hh & Hl & He).
  - exists k. by split_and!.
  - cbn. lia.
  - unfold MaxInt, intSize. lia.
Qed.

Lemma remove_first_head x l : Os.remove_first x (x :: l) = l.
Proof. cbn. by rewrite String.eqb_refl. Qed.

Lemma handle_POST fuel s w r :
  Method r = Http.MethodPost ->
  handle fuel s w r =
  match openFile fuel s r with
  | None => None
  | Some (s1, inr err) =>
      Some (Body_Close (emit s1 (EvLog (LogUnableToOpen err))),
            Http.Error w "open" Http.StatusInternalServerError)
  | Some (s1, inl f) =>
      let '(s2, n, err) := Io.Copy s1 f (Body r) in
      match err with
      | Some e =>
          Some (Body_Close
                  (Os.Close (emit s2 (EvLog (LogWriteError n (Name f) e))) f),
                Http.Error w "write" Http.StatusInternalServerError)
      | None =>
          Some (Body_Close (Os.Close (emit s2 (EvLog (LogWrote n (Name f)))) f),
                Http.Write w (Fmt.fmt_v n))
      end
  end.
Proof. intros H. unfold handle. rewrite H. reflexivity. Qed.

(** The whole effect of a request for which [openFile] returns a file. *)
Lemma handle_opened fuel s r s1 f :
  Method r = Http.MethodPost ->
  openFile fuel s r = Some (s1, inl f) ->
  exists s' w s2 n err (k : nat),
    handle fuel s Http.newResponse r = Some (s', w) /\
    Io.Copy s1 f (Body r) = (s2, n, err) /\
    (k <= length (bytes_of r))%nat /\ n = Z.of_nat k /\ n <= MaxInt /\
    (err = None -> k = length (bytes_of r)) /\
    files s' = <[Name f := take k (bytes_of r)]> (files s) /\
    handles s' = handles s /\ locked s' = false /\ same_env s s' /\
    (exists l, trace s' = trace s2 ++ [EvLog l; EvFileClose (Name f); EvBodyClose]) /\
    w = match err with
        | Some _ => Http.Error Http.newResponse "write"
                      Http.StatusInternalServerError
        | None => Http.Write Http.newResponse (Fmt.fmt_v n)
        end.
Proof.
  intros Hm Ho. rewrite (handle_POST _ _ _ _ Hm), Ho.
  apply openFile_inl in Ho as (Hnone & Hfiles & Hh & Hl & He & _).
  destruct (Io.Copy s1 f (Body r)) as [[s2 n] err] eqn:Hc.
  assert (files s1 !! Name f = Some []) as Hnew.
  { rewrite Hfiles. apply lookup_insert_eq. }
  destruct (Copy_new_file _ _ _ _ _ _ Hnew Hc)
    as (k & Hk & Hn & Hmax & Hfiles2 & Hall & Hh2 & Hl2 & He2).
  assert (files s2 = <[Name f := take k (bytes_of r)]> (files s)) as Hf2.
  { rewrite Hfiles2, Hfiles. apply insert_insert_eq. }
  assert (Os.remove_first (Name f) (handles s2) = handles s) as Hclosed.
  { rewrite Hh2, Hh. apply remove_first_head. }
  assert (same_env s s2) as He02 by (by apply (same_env_trans _ s1)).
  assert (locked s2 = false) as Hl02 by congruence.
  destruct err as [e|].
  - eexists _, _, s2, n, (Some e), k. split; [reflexivity|].
    split_and!;
      first [done | exact Hf2 | exact Hclosed | exact Hl02 | exact He02
            | eexists; cbn; by rewrite <- !app_assoc].
  - eexists _, _, s2, n, None, k. split; [reflexivity|].
    split_and!;
      first [done | exact Hf2 | exact Hclosed | exact Hl02 | exact He02
            | eexists; cbn; by rewrite <- !app_assoc].
Qed.

(** ** The handler *)

(** The handler never changes a file that exists: what it writes goes to
    the file that it has created itself. *)
Lemma handle_keeps_existing_files fuel s r s' w name c :
  handle fuel s Http.newResponse r = Some (s', w) ->
  files s !! name = Some c -> files s' !! name = Some c.
Proof.
  intros Hh Hc.
  destruct (String.eqb_spec Http.MethodPost (Method r)) as [Hm|Hm].
  - symmetry in Hm. pose proof Hh as Hh'.
    rewrite (handle_POST _ _ _ _ Hm) in Hh'.
    destruct (openFile fuel s r) as [[s1 [f|e]]|] eqn:Ho; [| |discriminate].
    + clear Hh'. apply openFile_inl in Ho as Hnew.
      destruct Hnew as (Hnone & _).
      destruct (handle_opened fuel s r s1 f Hm Ho)
        as (s'' & w'' & _ & _ & _ & k & Hh'' & _ & _ & _ & _ & _ & Hfiles & _).
      rewrite Hh in Hh''. injection Hh'' as <- <-.
      rewrite Hfiles, lookup_insert_ne; [done|]. intros Heq.
      rewrite Heq in Hnone. congruence.
    + injection Hh' as <- <-. apply openFile_inr in Ho as (Hf & _).
      cbn. by rewrite Hf.
  - unfold handle in Hh. destruct (String.eqb_spec Http.MethodPost (Method r));
      [done|]. cbn [negb] in Hh. by injection Hh as <- <-.
Qed.

(** C3.  A POST request for which [openFile] returns a file and whose body
    is copied without error gets a response with status 200 whose body is
    the decimal representation of the number of bytes of the request body,
    and the file that the request created holds the request body, byte for
    byte; this includes the empty body. *)
Theorem handle_success fuel s r s1 f s2 n :
  Method r = Http.MethodPost ->
  openFile fuel s r = Some (s1, inl f) ->
  Io.Copy s1 f (Body r) = (s2, n, None) ->
  exists s' w,
    handle fuel s Http.newResponse r = Some (s', w) /\
    files s !! Name f = None /\
    files s' !! Name f = Some (bytes_of r) /\
    status w = Http.StatusOK /\
    written w = Fmt.fmt_v (Z.of_nat (length (bytes_of r))) /\
    decimal_value (written w) = Some (Z.of_nat (length (bytes_of r))).
Proof.
  intros Hm Ho Hc.
  destruct (handle_opened fuel s r s1 f Hm Ho)
    as (s' & w & s2' & n' & err & k & Hh & Hc' & Hk & Hn & Hmax & Hall &
        Hfiles & _ & _ & _ & _ & Hw).
  rewrite Hc in Hc'. injection Hc' as <- <- <-.
  specialize (Hall eq_refl). subst k.
  apply openFile_inl in Ho as (Hnone & _).
  exists s', w. split; [done|]. split; [done|].
  split; [rewrite Hfiles, firstn_all; apply lookup_insert_eq|].
  subst w n. split; [reflexivity|]. split; [reflexivity|].
  change (written (Http.Write Http.newResponse ?x)) with x.
  apply fmt_v_decimal. lia.
Qed.

Lemma handle_success_witness :
  exists s' w,
    handle 4 empty_world Http.newResponse sample_post = Some (s', w) /\
    files empty_world !! "192.0.2.7:40112_up_load_000001" = None /\
    files s' !! "192.0.2.7:40112_up_load_000001"
      = Some [Byte.x68; Byte.x69; Byte.x21] /\
    status w = 200 /\ written w = "3" /\ decimal_value (written w) = Some 3.
Proof.
  eapply (handle_success 4 empty_world sample_post _
            (mkFile "192.0.2.7:40112_up_load_000001") _ 3).
  - reflexivity.
  - vm_compute. reflexivity.
  - vm_compute. reflexivity.
Defined.

(** C4, amended.  A request whose method is not POST gets the status 405
    and the body ["Invalid method"] followed by a newline; the handler does
    so whatever the state of the lock and without any step of the name
    probe: it only writes a log line and closes the request body, so no
    file is created, opened or modified. *)
Theorem handle_rejects_other_methods fuel s r :
  Method r <> Http.MethodPost ->
  exists s' w,
    handle fuel s Http.newResponse r = Some (s', w) /\
    status w = Http.StatusMethodNotAllowed /\
    written w = "Invalid method" +:+ newline /\
    files s' = files s /\ handles s' = handles s /\ locked s' = locked s /\
    trace s' = trace s ++ [EvLog LogInvalidMethod; EvBodyClose].
Proof.
  intros Hm. unfold handle.
  destruct (String.eqb_spec Http.MethodPost (Method r)) as [Heq|Hne];
    [by destruct Hm|].
  cbn [negb]. eexists _, _. split; [reflexivity|].
  split_and!; try reflexivity. cbn. by rewrite <- app_assoc.
Qed.

Lemma handle_rejects_other_methods_witness :
  exists s' w,
    handle 0 empty_world Http.newResponse sample_get = Some (s', w) /\
    status w = 405 /\
    written w = "Invalid method" +:+ newline /\
    files s' = files empty_world /\ handles s' = handles empty_world /\
    locked s' = locked empty_world /\
    trace s' = trace empty_world ++ [EvLog LogInvalidMethod; EvBodyClose].
Proof.
  apply (handle_rejects_other_methods 0 empty_world sample_get).
  vm_compute. discriminate.
Defined.

(** The body of the response to a GET request is not ["Invalid method"]:
    it has one more byte. *)
Lemma invalid_method_body_has_newline :
  ~ exists s' w,
      handle 0 empty_world Http.newResponse sample_get = Some (s', w) /\
      status w = 405 /\ written w = "Invalid method".
Proof.
  intros (s' & w & H & _ & Hw). vm_compute in H.
  injection H as <- <-. vm_compute in Hw. discriminate.
Qed.

(** C5, amended.  For a POST request: when [openFile] fails, the response
    has status 500 and the body ["open"] followed by a newline; when the
    transfer of the body fails, the response has status 500 and the body
    ["write"] followed by a newline, and the file keeps the part of the body
    that was written; and however the transfer ends, the last things that
    the handler does are to close the file and the request body, so that the
    files that are open after the request are those that were open
    before. *)
Theorem handle_failures fuel s r s1 res :
  Method r = Http.MethodPost ->
  openFile fuel s r = Some (s1, res) ->
  exists s' w,
    handle fuel s Http.newResponse r = Some (s', w) /\
    handles s' = handles s /\
    match res with
    | inr e =>
        status w = Http.StatusInternalServerError /\
        written w = "open" +:+ newline /\
        files s' = files s
    | inl f =>
        exists s2 n err l,
          Io.Copy s1 f (Body r) = (s2, n, err) /\
          trace s' = trace s2 ++ [EvLog l; EvFileClose (Name f); EvBodyClose] /\
          (err <> None ->
           status w = Http.StatusInternalServerError /\
           written w = "write" +:+ newline /\
           0 <= n /\
           files s' !! Name f = Some (take (Z.to_nat n) (bytes_of r)))
    end.
Proof.
  intros Hm Ho. destruct res as [f|e].
  - destruct (handle_opened fuel s r s1 f Hm Ho)
      as (s' & w & s2 & n & err & k & Hh & Hc & Hk & Hn & Hmax & Hall &
          Hfiles & Hhs & _ & _ & (l & Htr) & Hw).
    exists s', w. split; [done|]. split; [done|].
    exists s2, n, err, l. split; [done|]. split; [done|].
    intros Herr. destruct err as [e|]; [|done]. subst w n.
    split; [reflexivity|]. split; [reflexivity|]. split; [lia|].
    rewrite Hfiles, Nat2Z.id. apply lookup_insert_eq.
  - rewrite (handle_POST _ _ _ _ Hm), Ho.
    apply openFile_inr in Ho as (Hf & Hh & _).
    eexists _, _. split; [reflexivity|]. by split_and!.
Qed.

Lemma handle_failures_witness :
  exists s1 f,
    openFile 4 empty_world broken_post = Some (s1, inl f) /\
    exists s' w,
      handle 4 empty_world Http.newResponse broken_post = Some (s', w) /\
      handles s' = handles empty_world /\
      exists s2 n err l,
        Io.Copy s1 f (Body broken_post) = (s2, n, err) /\
        trace s' = trace s2 ++ [EvLog l; EvFileClose (Name f); EvBodyClose] /\
        (err <> None ->
         status w = 500 /\ written w = "write" +:+ newline /\ 0 <= n /\
         files s' !! Name f = Some (take (Z.to_nat n) (bytes_of broken_post))).
Proof.
  eexists _, _. split; [vm_compute; reflexivity|].
  apply (handle_failures 4 empty_world broken_post _ (inl _)).
  - reflexivity.
  - vm_compute. reflexivity.
Defined.

(** The body of the response to a POST request whose file cannot be opened
    is not ["open"]: it has one more byte. *)
Lemma open_failure_body_has_newline :
  ~ exists s' w,
      handle 4 readonly_world Http.newResponse sample_post = Some (s', w) /\
      status w = 500 /\ written w = "open".
Proof.
  intros (s' & w & H & _ & Hw). vm_compute in H.
  injection H as <- <-. vm_compute in Hw. discriminate.
Qed.

(** ** Destination names *)

(** C6, amended.  For a sequence number from 0 to 999999, [makeName] returns
    the remote endpoint, an underscore, the sanitized path, an underscore
    and the number as exactly six decimal digits.  The sanitized path is the
    cleaned request path without one leading separator and with every other
    separator replaced by an underscore, so it has no ["/"] in it; and the
    name has none when the remote endpoint has none. *)
Theorem makeName_format r n :
  0 <= n < 1000000 ->
  let cleaned := Filepath.Clean (URL_Path r) in
  let component :=
    flatten match cleaned with
            | String "/" rest => rest
            | _ => cleaned
            end in
  exists seq,
    makeName r n = RemoteAddr r +:+ "_" +:+ component +:+ "_" +:+ seq /\
    String.length seq = 6%nat /\
    digits_value seq 0 = Some n /\
    no_slash component = true /\
    (no_slash (RemoteAddr r) = true -> no_slash (makeName r n) = true).
Proof.
  intros Hn cleaned component. exists (Fmt.fmt_06v n).
  destruct (fmt_06v_six n Hn) as [Hlen Hval].
  assert (makeName r n
          = RemoteAddr r +:+ "_" +:+ component +:+ "_" +:+ Fmt.fmt_06v n)
    as Heq.
  { rewrite makeName_eq, TrimPrefix_slash. reflexivity. }
  split_and!; try done.
  - apply no_slash_flatten.
  - intros Haddr. rewrite Heq.
    rewrite !no_slash_app, Haddr, no_slash_fmt_06v.
    unfold component. by rewrite no_slash_flatten.
Qed.

Lemma makeName_format_witness :
  exists seq,
    makeName sample_post 42 = "192.0.2.7:40112" +:+ "_" +:+ "up_load" +:+ "_" +:+ seq /\
    String.length seq = 6%nat /\
    digits_value seq 0 = Some 42 /\
    no_slash "up_load" = true /\
    (no_slash "192.0.2.7:40112" = true ->
     no_slash (makeName sample_post 42) = true).
Proof. apply (makeName_format sample_post 42). lia. Defined.

(** The name that [makeName] returns has a ["/"] in it when the remote
    endpoint has one. *)
Lemma makeName_keeps_slash_of_endpoint :
  0 <= 0 < 1000000 /\
  makeName slash_endpoint_post 0 = "10.0.0.0/8:0_a_b_c_000000" /\
  no_slash (makeName slash_endpoint_post 0) = false.
Proof. split; [lia|]. split; reflexivity. Qed.

Lemma probe_same_names r1 r2 :
  (forall n, makeName r1 n = makeName r2 n) ->
  forall fuel s name num err,
    probe fuel s r1 name num err = probe fuel s r2 name num err.
Proof.
  intros Hn. induction fuel as [|fuel IH]; intros s name num err; [done|].
  cbn [probe]. destruct (keep_trying err); [|done].
  destruct (Os.Stat s name) as [s1 err1]. rewrite Hn. apply IH.
Qed.

Lemma openFile_same_names r1 r2 fuel s :
  (forall n, makeName r1 n = makeName r2 n) ->
  openFile fuel s r1 = openFile fuel s r2.
Proof.
  intros Hn. unfold openFile. destruct (LOCK_Lock s) as [s1|]; [|done].
  by rewrite Hn, (probe_same_names r1 r2 Hn).
Qed.

(** C9.  [makeName] is not injective in the request path: for every remote
    endpoint and every sequence number, the paths ["/a/b"] and ["/a_b"]
    give the same name, with the component ["a_b"]; the paths ["/x"],
    ["//x"] and ["/./x"] all give the component ["x"]; the path ["/"]
    gives an empty component; and requests whose names agree are given the
    same file by [openFile], so they share one numbering sequence. *)
Theorem makeName_not_injective :
  "/a/b"%string <> "/a_b"%string /\
  (forall r n,
     makeName (with_path r "/a/b") n = RemoteAddr r +:+ "_a_b_" +:+ Fmt.fmt_06v n /\
     makeName (with_path r "/a_b") n = RemoteAddr r +:+ "_a_b_" +:+ Fmt.fmt_06v n) /\
  (forall r n,
     makeName (with_path r "/x") n = RemoteAddr r +:+ "_x_" +:+ Fmt.fmt_06v n /\
     makeName (with_path r "//x") n = RemoteAddr r +:+ "_x_" +:+ Fmt.fmt_06v n /\
     makeName (with_path r "/./x") n = RemoteAddr r +:+ "_x_" +:+ Fmt.fmt_06v n) /\
  (forall r n,
     makeName (with_path r "/") n = RemoteAddr r +:+ "__" +:+ Fmt.fmt_06v n) /\
  (forall r fuel s,
     openFile fuel s (with_path r "/a/b") = openFile fuel s (with_path r "/a_b")).
Proof.
  split; [discriminate|].
  split; [intros r n; split; reflexivity|].
  split; [intros r n; split_and!; reflexivity|].
  split; [intros r n; reflexivity|].
  intros r fuel s. apply openFile_same_names. reflexivity.
Qed.

(** ** Name allocation *)

(** C1.  What [openFile] does when the [k]-th candidate is the first that
    is reported not to exist: it stats the candidates 0 to [k] and then
    opens candidate [k + 1], another name, leaving the entry of candidate
    [k] as it was.  The post statement of the loop has made the name for the
    incremented number before the condition ends the loop. *)
Theorem openFile_opens_next_candidate fuel s r k :
  locked s = false -> first_free s r k -> (k < fuel)%nat ->
  exists s1 res,
    openFile fuel s r = Some (s1, res) /\
    trace s1 =
      trace s ++ EvLock :: stat_events s r (S k) ++
      [EvOpenFile (candidate r (S k)) (Os.open_result s (candidate r (S k)));
       EvUnlock] /\
    candidate r (S k) <> candidate r k /\
    files s1 !! candidate r k = files s !! candidate r k /\
    (forall f, res = inl f ->
       Name f = candidate r (S k) /\ files s1 !! Name f = Some []).
Proof.
  intros Hl Hff Hk. rewrite (openFile_spec fuel s r k Hl Hff Hk).
  destruct (probed_fields s r k) as (Pf & Ph & Pl & Pt & Pe).
  pose proof (candidate_succ_neq r k) as Hne.
  assert (Os.open_result (probed s r k) (candidate r (S k))
          = Os.open_result s (candidate r (S k))) as Hor.
  { unfold Os.open_result. destruct Pe as (_ & -> & _). by rewrite Pf. }
  destruct (Os.OpenFile (probed s r k) (candidate r (S k))) as [s3 res] eqn:Ho.
  exists (LOCK_Unlock s3), res. split; [done|]. destruct res as [f|e].
  - apply OpenFile_inl in Ho as (Hn & Hnone & Hof & Hfiles & _ & _ & Htr & _).
    assert (Os.open_result s (candidate r (S k)) = None) as ->.
    { rewrite <- Hor. unfold Os.open_result. by rewrite Hof, Hnone. }
    cbn [LOCK_Unlock emit set_locked files trace].
    rewrite Htr, Pt, Hfiles, Pf. split_and!.
    + rewrite <- !app_assoc. reflexivity.
    + done.
    + by rewrite lookup_insert_ne.
    + intros f' [= <-]. rewrite Hn. split; [done|]. apply lookup_insert_eq.
  - apply OpenFile_inr in Ho as (Hres & ->). rewrite <- Hor, Hres.
    cbn [LOCK_Unlock emit set_locked files trace].
    rewrite Pt, Pf. split_and!; try done.
    rewrite <- !app_assoc. reflexivity.
Qed.

Lemma openFile_opens_next_candidate_witness :
  exists s1 res,
    openFile 1 empty_world sample_post = Some (s1, res) /\
    trace s1 =
      trace empty_world ++ EvLock :: stat_events empty_world sample_post 1 ++
      [EvOpenFile "192.0.2.7:40112_up_load_000001"
         (Os.open_result empty_world "192.0.2.7:40112_up_load_000001");
       EvUnlock] /\
    "192.0.2.7:40112_up_load_000001"%string
      <> "192.0.2.7:40112_up_load_000000"%string /\
    files s1 !! "192.0.2.7:40112_up_load_000000"
      = files empty_world !! "192.0.2.7:40112_up_load_000000" /\
    (forall f, res = inl f ->
       Name f = "192.0.2.7:40112_up_load_000001"%string /\
       files s1 !! Name f = Some []).
Proof.
  apply (openFile_opens_next_candidate 1 empty_world sample_post 0).
  - reflexivity.
  - split; [reflexivity|]. intros i Hi. lia.
  - lia.
Defined.

(** Three requests with the same remote endpoint and path, one after the
    other, into an empty directory: the first creates the file with the
    sequence number 1, the others fail, and no file has the number 0 or
    2. *)
Example three_requests_one_file :
  option_map summary
    (handle_all 4 empty_world [sample_post; sample_post; sample_post])
  = Some ([("192.0.2.7:40112_up_load_000001"%string,
            [Byte.x68; Byte.x69; Byte.x21])],
          [200; 500; 500]).
Proof. vm_compute. reflexivity. Qed.

Lemma candidate_same_request r1 r2 k :
  RemoteAddr r2 = RemoteAddr r1 -> URL_Path r2 = URL_Path r1 ->
  candidate r2 k = candidate r1 k.
Proof. intros Ha Hp. unfold candidate, makeName. by rewrite Ha, Hp. Qed.

(** C2.  Of two POST requests in sequence with the same remote endpoint and
    path, the second fails when the first has succeeded: the first has
    created the candidate after the first free one, the free one is still
    free, and so the second tries to create the same file again.  It gets
    status 500 and the body ["open"] with a newline, and it leaves the
    directory as the first request left it: one new file, with the body of
    the first request. *)
Theorem second_request_fails fuel s r1 r2 s1 w1 :
  Method r1 = Http.MethodPost -> Method r2 = Http.MethodPost ->
  RemoteAddr r2 = RemoteAddr r1 -> URL_Path r2 = URL_Path r1 ->
  handle fuel s Http.newResponse r1 = Some (s1, w1) ->
  status w1 = Http.StatusOK ->
  exists s2 w2 name,
    handle fuel s1 Http.newResponse r2 = Some (s2, w2) /\
    status w2 = Http.StatusInternalServerError /\
    written w2 = "open" +:+ newline /\
    files s !! name = None /\
    files s1 = <[name := bytes_of r1]> (files s) /\
    files s2 = files s1.
Proof.
  intros Hm1 Hm2 Ha Hp Hh1 Hst.
  pose proof Hh1 as Hh1'. rewrite (handle_POST _ _ _ _ Hm1) in Hh1'.
  destruct (openFile fuel s r1) as [[s0 [f|e]]|] eqn:Ho;
    [| injection Hh1' as <- <-; discriminate Hst | discriminate].
  clear Hh1'.
  destruct (handle_opened fuel s r1 s0 f Hm1 Ho)
    as (s' & w & s2' & n & err & k & Hh & Hc & Hk & Hn & Hmax & Hall &
        Hfiles & Hhs & Hl & He & _ & Hw).
  rewrite Hh in Hh1. injection Hh1 as -> ->.
  destruct err as [e|]; [subst w1; discriminate Hst|].
  specialize (Hall eq_refl). subst k. rewrite firstn_all in Hfiles.
  apply openFile_inl in Ho
    as (Hnone & _ & _ & _ & _ & k & [Hfree Hbelow] & Hkf & Hname & Hof).
  (* the second request finds the same first free candidate *)
  assert (forall j, candidate r2 j = candidate r1 j) as Hcand.
  { intros j. by apply candidate_same_request. }
  assert (forall name, stat_fault s1 name = stat_fault s name) as Hsf.
  { intros name. destruct He as (-> & _). done. }
  assert (first_free s1 r2 k) as Hff2.
  { split.
    - rewrite Hcand. unfold Os.stat_result in *. rewrite Hsf, Hfiles.
      rewrite lookup_insert_ne; [done|].
      rewrite Hname. apply candidate_succ_neq.
    - intros i Hi. rewrite Hcand. specialize (Hbelow i Hi).
      unfold Os.stat_result in *. rewrite Hsf, Hfiles.
      destruct (stat_fault s (candidate r1 i)); [done|].
      destruct (decide (Name f = candidate r1 i)) as [<-|Hne].
      + by rewrite lookup_insert_eq.
      + by rewrite lookup_insert_ne. }
  (* and the candidate after it exists by now *)
  pose proof (openFile_spec fuel s1 r2 k Hl Hff2 Hkf) as Ho2.
  destruct (probed_fields s1 r2 k) as (Pf & Ph & _ & _ & Pe).
  assert (Os.open_result (probed s1 r2 k) (candidate r2 (S k)) = Some EEXIST)
    as Hor.
  { unfold Os.open_result.
    destruct Pe as (_ & -> & _), He as (_ & -> & _).
    rewrite Hcand, <- Hname, Hof, Pf, Hfiles. by rewrite lookup_insert_eq. }
  unfold Os.OpenFile in Ho2. rewrite Hor in Ho2.
  rewrite (handle_POST _ _ _ _ Hm2), Ho2.
  eexists _, _, (Name f). split; [reflexivity|].
  by split_and!.
Qed.

Lemma second_request_fails_witness :
  exists s1 w1,
    handle 4 empty_world Http.newResponse sample_post = Some (s1, w1) /\
    exists s2 w2 name,
      handle 4 s1 Http.newResponse sample_post = Some (s2, w2) /\
      status w2 = 500 /\ written w2 = "open" +:+ newline /\
      files empty_world !! name = None /\
      files s1 = <[name := bytes_of sample_post]> (files empty_world) /\
      files s2 = files s1.
Proof.
  eexists _, _. split; [vm_compute; reflexivity|].
  eapply (second_request_fails 4 empty_world sample_post sample_post).
  - reflexivity.
  - reflexivity.
  - reflexivity.
  - reflexivity.
  - vm_compute. reflexivity.
  - reflexivity.
Defined.

(** C10, amended.  When [openFile] returns, it has examined the candidates
    in order up to the first one reported not to exist, and none of the
    earlier outcomes, whether no error or an error other than not-exist,
    has ended the loop; as long as no candidate is reported not to exist,
    [openFile] does not return; and when the lock is free at the call, so
    that [LOCK.Lock] returns, and some candidate is reported not to exist,
    [openFile] returns.  The lock is needed for the last part only. *)
Theorem openFile_terminates s r :
  (locked s = false ->
   (exists k, Os.stat_result s (candidate r k) = Some ENOENT) ->
   exists fuel res, openFile fuel s r = Some res) /\
  (forall fuel res,
     openFile fuel s r = Some res ->
     exists k evs,
       (k < fuel)%nat /\ first_free s r k /\
       trace (fst res) = trace s ++ EvLock :: stat_events s r (S k) ++ evs) /\
  (forall fuel,
     (forall i, (i < fuel)%nat ->
        Os.stat_result s (candidate r i) <> Some ENOENT) ->
     openFile fuel s r = None).
Proof.
  split_and!.
  - intros Hl (k & Hk). apply first_free_least in Hk as (k' & _ & Hff).
    exists (S k'). rewrite (openFile_spec (S k') s r k' Hl Hff ltac:(lia)).
    destruct (Os.OpenFile _ _) as [s3 res]. by eexists.
  - intros fuel [s1 res] Ho.
    apply openFile_inv in Ho as (_ & k & s3 & Hff & Hk & Ho & ->).
    destruct (probed_fields s r k) as (_ & _ & _ & Pt & _).
    exists k. cbn [fst LOCK_Unlock emit trace set_locked].
    destruct res as [f|e].
    + apply OpenFile_inl in Ho as (_ & _ & _ & _ & _ & _ & Htr & _).
      eexists. split_and!; try done. rewrite Htr, Pt.
      rewrite <- !app_assoc. reflexivity.
    + apply OpenFile_inr in Ho as (_ & ->).
      eexists. split_and!; try done. cbn [emit trace]. rewrite Pt.
      rewrite <- !app_assoc. reflexivity.
  - intros fuel Hno. destruct (locked s) eqn:Hl.
    + unfold openFile, LOCK_Lock. by rewrite Hl.
    + by apply openFile_None.
Qed.

Lemma openFile_terminates_witness :
  (exists fuel res, openFile fuel guarded_world sample_post = Some res) /\
  (forall fuel res,
     openFile fuel guarded_world sample_post = Some res ->
     exists k evs,
       (k < fuel)%nat /\ first_free guarded_world sample_post k /\
       trace (fst res)
       = trace guarded_world ++
         EvLock :: stat_events guarded_world sample_post (S k) ++ evs) /\
  (forall fuel,
     (forall i, (i < fuel)%nat ->
        Os.stat_result guarded_world (candidate sample_post i)
        <> Some ENOENT) ->
     openFile fuel guarded_world sample_post = None) /\
  openFile 2 guarded_world sample_post = None /\
  (trace ∘ fst) <$> openFile 3 guarded_world sample_post =
  Some [EvLock;
        EvStat "192.0.2.7:40112_up_load_000000" (Some EACCES);
        EvStat "192.0.2.7:40112_up_load_000001" None;
        EvStat "192.0.2.7:40112_up_load_000002" (Some ENOENT);
        EvOpenFile "192.0.2.7:40112_up_load_000003" None;
        EvUnlock].
Proof.
  destruct (openFile_terminates guarded_world sample_post) as (H1 & H2 & H3).
  split_and!.
  - apply H1; [reflexivity|]. exists 2%nat. reflexivity.
  - exact H2.
  - exact H3.
  - vm_compute. reflexivity.
  - vm_compute. reflexivity.
Defined.

(** ** Start-up *)

Lemma backtrack_ge out dotdot w :
  (dotdot <= w)%nat -> (dotdot <= Filepath.backtrack out dotdot w)%nat.
Proof.
  induction w as [|w IH]; intros H; [done|]. cbn [Filepath.backtrack].
  destruct (Nat.ltb_spec dotdot (S w)) as [Hlt|Hge]; cbn [andb]; [|done].
  destruct (negb _); [|done]. apply IH. lia.
Qed.

Lemma span_elem_length p :
  (length (Filepath.span_elem p).2 <= length p)%nat.
Proof.
  induction p as [|c p IH]; [done|]. cbn [Filepath.span_elem].
  destruct (Filepath.IsPathSeparator c); [done|].
  destruct (Filepath.span_elem p) as [e rest]. cbn in *. lia.
Qed.

(** The loop of [Clean] reaches the end of the path: every iteration
    consumes a byte at least, so the length of the path is fuel enough. *)
Lemma clean_loop_fuel rooted fuel : forall fuel' p out dotdot,
  (length p <= fuel)%nat -> (length p <= fuel')%nat ->
  Filepath.clean_loop fuel rooted p out dotdot
  = Filepath.clean_loop fuel' rooted p out dotdot.
Proof.
  induction fuel as [|fuel IH]; intros fuel' p out dotdot H1 H2.
  - destruct p; [|cbn in H1; lia]. by destruct fuel'.
  - destruct fuel' as [|fuel']; [destruct p; [done|cbn in H2; lia]|].
    cbn [Filepath.clean_loop]. destruct p as [|c p1]; [done|].
    cbn [length] in H1, H2.
    destruct (Filepath.IsPathSeparator c) eqn:Hsep; [apply IH; lia|].
    destruct (Filepath.is_dot c && Filepath.at_end_or_sep p1);
      [apply IH; lia|].
    destruct (Filepath.is_dot c && _).
    + cbv zeta.
      assert (length (skipn 1 p1) <= length p1)%nat
        by (rewrite length_skipn; lia).
      destruct (_ <? _)%nat; [apply IH; lia|].
      destruct (negb rooted); apply IH; lia.
    + cbv zeta. pose proof (span_elem_length (c :: p1)) as Hs.
      assert (length (Filepath.span_elem (c :: p1)).2 <= length p1)%nat as Hr.
      { cbn [Filepath.span_elem]. rewrite Hsep.
        pose proof (span_elem_length p1).
        by destruct (Filepath.span_elem p1). }
      destruct (Filepath.span_elem (c :: p1)) as [e rest].
      cbn [snd] in Hr. apply IH; lia.
Qed.

(** [Clean] keeps the leading separator of a rooted path. *)
Lemma clean_loop_rooted fuel : forall p out t,
  out = Filepath.Separator :: t ->
  exists t', Filepath.clean_loop fuel true p out 1 = Filepath.Separator :: t'.
Proof.
  induction fuel as [|fuel IH]; intros p out t ->; [by eexists|].
  cbn [Filepath.clean_loop]. destruct p as [|c p1]; [by eexists|].
  destruct (Filepath.IsPathSeparator c) eqn:Hsep; [by eapply IH|].
  destruct (Filepath.is_dot c && Filepath.at_end_or_sep p1); [by eapply IH|].
  destruct (Filepath.is_dot c && _).
  - cbv zeta. destruct (Nat.ltb_spec 1 (length (Filepath.Separator :: t)))
      as [Hlt|Hge].
    + pose proof (backtrack_ge (Filepath.Separator :: t) 1
                    (length (Filepath.Separator :: t) - 1)) as Hb.
      destruct (Filepath.backtrack _ _ _) as [|w]; [cbn in *; lia|].
      by eapply IH.
    + cbn [negb]. by eapply IH.
  - cbv zeta. destruct (Filepath.span_elem (c :: p1)) as [e rest].
    destruct (_ || _); by eapply IH.
Qed.

Lemma Clean_abs path :
  Filepath.IsAbs path = true -> Filepath.IsAbs (Filepath.Clean path) = true.
Proof.
  destruct path as [|c path]; [discriminate|].
  unfold Filepath.IsAbs. cbn [Strings.HasPrefix]. rewrite andb_true_r.
  intros Hc. apply Ascii.eqb_eq in Hc as ->.
  unfold Filepath.Clean. cbn [list_ascii_of_string Filepath.clean_bytes].
  change (Filepath.IsPathSeparator "/") with true. cbv iota.
  destruct (clean_loop_rooted
              (length ("/"%char :: list_ascii_of_string path)) 
              (list_ascii_of_string path) [Filepath.Separator] [] eq_refl)
    as (t' & ->).
  reflexivity.
Qed.

Lemma Join_abs a b :
  Filepath.IsAbs a = true ->
  Filepath.Join [a; b] = Filepath.Clean (a +:+ "/" +:+ b) /\
  Filepath.IsAbs (Filepath.Join [a; b]) = true.
Proof.
  intros Ha. destruct a as [|c a]; [discriminate|].
  cbn [Filepath.Join String.eqb Strings.Join]. split; [done|].
  apply Clean_abs. rewrite string_app_cons. exact Ha.
Qed.

(** C8.  In FastCGI mode (and not with [-http]) with a relative socket
    path, when the start-up reaches the call of [net.Listen], the address
    that it listens on is the socket path joined to the working directory
    in which the process started; this is an absolute path, so the socket
    is bound there, whatever the output directory that the process has
    changed into. *)
Theorem main_fcgi_socket sys cwd0 fl :
  plaintext fl = false -> serveFCGI fl = true ->
  Filepath.IsAbs (laddr fl) = false ->
  Filepath.IsAbs cwd0 = true ->
  getwd_err sys = None -> mkdirall_err sys (dir fl) = None ->
  chdir_err sys (dir fl) = None ->
  let addr := Filepath.Join [cwd0; laddr fl] in
  addr = Filepath.Clean (cwd0 +:+ "/" +:+ laddr fl) /\
  Filepath.IsAbs addr = true /\
  main sys cwd0 fl =
  match listen_err sys "unix" addr with
  | Some e => Fatal (UnableToListen e)
  | None => Serve ServeFastCGI (mkListener "unix" addr false (Some addr))
  end.
Proof.
  intros Hp Hf Hrel Habs Hg Hm Hc addr.
  destruct (Join_abs cwd0 (laddr fl) Habs) as [Hj Ha].
  split; [done|]. split; [done|].
  unfold main. rewrite Hg, Hm, Hc, Hp, Hf, Hrel. cbn [negb].
  subst addr. destruct (listen_err sys "unix" _); [done|].
  unfold resolve. by rewrite Ha.
Qed.

Lemma main_fcgi_socket_witness :
  (Filepath.Join ["/srv/app"; "run/fcgi.sock"]
   = Filepath.Clean ("/srv/app" +:+ "/" +:+ "run/fcgi.sock") /\
   Filepath.IsAbs (Filepath.Join ["/srv/app"; "run/fcgi.sock"]) = true /\
   main quiet_sys "/srv/app" fcgi_flags =
   match listen_err quiet_sys "unix"
           (Filepath.Join ["/srv/app"; "run/fcgi.sock"]) with
   | Some e => Fatal (UnableToListen e)
   | None =>
       Serve ServeFastCGI
         (mkListener "unix" (Filepath.Join ["/srv/app"; "run/fcgi.sock"]) false
            (Some (Filepath.Join ["/srv/app"; "run/fcgi.sock"])))
   end) /\
  main quiet_sys "/srv/app" fcgi_flags =
  Serve ServeFastCGI
    (mkListener "unix" "/srv/app/run/fcgi.sock" false
       (Some "/srv/app/run/fcgi.sock")) /\
  resolve (chdir "/srv/app" (dir fcgi_flags)) (laddr fcgi_flags)
  = "/srv/app/posts/run/fcgi.sock".
Proof.
  split; [|split; reflexivity].
  apply (main_fcgi_socket quiet_sys "/srv/app" fcgi_flags); reflexivity.
Defined.

(** ** Concurrent requests *)

Lemma Write_locked s f b :
  locked (Os.Write s f b).1.1 = locked s.
Proof. unfold Os.Write. by destruct (_ <=? _). Qed.

(** What a step of a goroutine does to the lock: it takes the free lock
    and enters the sequence, or stays inside with the lock as it is, or
    releases the lock and leaves, or stays outside with the lock as it
    is. *)
Lemma tstep_lock s t s' t' :
  tstep s t = Some (s', t') ->
  (in_sequence t = false /\ in_sequence t' = true /\
   locked s = false /\ locked s' = true) \/
  (in_sequence t = true /\ in_sequence t' = true /\ locked s' = locked s) \/
  (in_sequence t = true /\ in_sequence t' = false /\ locked s' = false) \/
  (in_sequence t = false /\ in_sequence t' = false /\ locked s' = locked s).
Proof.
  destruct t as [r w pc]. unfold tstep, in_sequence.
  cbn [t_pc t_req t_rw]. destruct pc as [| |name num err|name|res|res|f cs n|].
  - destruct (negb _); intros [= <- <-]; by do 3 right.
  - unfold LOCK_Lock. destruct (locked s) eqn:Hl; [discriminate|].
    intros [= <- <-]. by left.
  - destruct (keep_trying err); intros [= <- <-]; right; by left.
  - unfold Os.OpenFile. destruct (Os.open_result s name);
      intros [= <- <-]; right; by left.
  - intros [= <- <-]. do 2 right. by left.
  - destruct res; intros [= <- <-]; by do 3 right.
  - destruct cs as [|c cs].
    + destruct (decide _); intros [= <- <-]; by do 3 right.
    + destruct (0 <? length c)%nat; [|intros [= <- <-]; by do 3 right].
      pose proof (Write_locked (emit s (EvRead (length c) None)) f c) as Hw.
      destruct (Os.Write _ f c) as [[s1 nw] ew]. cbn in Hw.
      destruct ew as [e|]; [|destruct (nw =? length c)%nat];
        intros [= <- <-]; by do 3 right.
  - discriminate.
Qed.

Lemma in_sequence_count_app ts1 ts2 :
  in_sequence_count (ts1 ++ ts2)
  = (in_sequence_count ts1 + in_sequence_count ts2)%nat.
Proof. unfold in_sequence_count. by rewrite List.filter_app, length_app. Qed.

Lemma in_sequence_count_cons t ts :
  in_sequence_count (t :: ts)
  = ((if in_sequence t then 1 else 0) + in_sequence_count ts)%nat.
Proof. unfold in_sequence_count. cbn. by destruct (in_sequence t). Qed.

(** The lock is held exactly when one goroutine is in the sequence, and
    never more than one is. *)
Lemma lock_invariant s0 st :
  locked s0 = false -> reachable s0 st ->
  in_sequence_count st.2 = if locked st.1 then 1%nat else 0%nat.
Proof.
  intros H0 Hr. induction Hr as [|st st' Hr IH Hstep].
  - cbn. by rewrite H0.
  - destruct Hstep as [s ts r|s s' t t' before after Ht]; cbn [fst snd] in *.
    + rewrite in_sequence_count_app, in_sequence_count_cons, IH. cbn. lia.
    + rewrite in_sequence_count_app, in_sequence_count_cons in *.
      apply tstep_lock in Ht
        as [(A & B & C & D)|[(A & B & C)|[(A & B & C)|(A & B & C)]]];
        rewrite A in IH; rewrite B.
      * rewrite C in IH. rewrite D. lia.
      * rewrite C. exact IH.
      * rewrite C. destruct (locked s); lia.
      * rewrite C. exact IH.
Qed.

Lemma runs_refl s t : runs s t s t.
Proof. by exists 0%nat. Qed.

Lemma runs_step s t s1 t1 s' t' :
  tstep s t = Some (s1, t1) -> runs s1 t1 s' t' -> runs s t s' t'.
Proof. intros Ht [n Hn]. exists (S n). cbn [run]. by rewrite Ht. Qed.

Lemma runs_trans s t s1 t1 s2 t2 :
  runs s t s1 t1 -> runs s1 t1 s2 t2 -> runs s t s2 t2.
Proof.
  intros [a Ha] H2. revert s t Ha.
  induction a as [|a IH]; intros s t Ha.
  - by injection Ha as <- <-.
  - cbn [run] in Ha. destruct (tstep s t) as [[sx tx]|] eqn:Hx.
    + eapply runs_step; [exact Hx|]. by apply IH.
    + by injection Ha as <- <-.
Qed.

(** The loop of [openFile], step by step. *)
Lemma probe_runs r w fuel : forall s name num err s2 name',
  probe fuel s r name num err = Some (s2, name') ->
  runs s (mkThread r w (AtCond name num err)) s2 (mkThread r w (AtOpen name')).
Proof.
  induction fuel as [|fuel IH]; intros s name num err s2 name';
    cbn [probe]; destruct (keep_trying err) eqn:Hk; try discriminate.
  - intros [= <- <-]. eapply runs_step; [|apply runs_refl].
    unfold tstep. cbn [t_pc]. by rewrite Hk.
  - intros Hp. eapply runs_step; [|eapply IH, Hp].
    unfold tstep. cbn [t_pc]. by rewrite Hk.
  - intros [= <- <-]. eapply runs_step; [|apply runs_refl].
    unfold tstep. cbn [t_pc]. by rewrite Hk.
Qed.

(** [io.Copy] and the end of [handle], step by step. *)
Lemma copy_runs r w f cs : forall s n s2 n' err,
  Io.copy_loop s f cs (body_err (Body r)) n = (s2, n', err) ->
  runs s (mkThread r w (AtCopy f cs n))
    (Body_Close
       (Os.Close
          (emit s2 (EvLog match err with
                          | Some e => LogWriteError n' (Name f) e
                          | None => LogWrote n' (Name f)
                          end)) f))
    (mkThread r
       match err with
       | Some _ => Http.Error w "write" Http.StatusInternalServerError
       | None => Http.Write w (Fmt.fmt_v n')
       end Done).
Proof.
  induction cs as [|c cs IH]; intros s n s2 n' err; cbn [Io.copy_loop].
  - intros [= <- <- <-]. eapply runs_step; [|apply runs_refl].
    unfold tstep. cbn [t_pc t_req t_rw]. by destruct (decide _).
  - destruct (0 <? length c)%nat eqn:Hpos.
    + destruct (Os.Write _ f c) as [[s1 nw] ew] eqn:Hw.
      destruct ew as [e|]; [|destruct (nw =? length c)%nat eqn:Hnw].
      * intros [= <- <- <-]. eapply runs_step; [|apply runs_refl].
        unfold tstep. cbn [t_pc t_req t_rw]. by rewrite Hpos, Hw.
      * intros Hrec. eapply runs_step; [|eapply IH, Hrec].
        unfold tstep. cbn [t_pc t_req t_rw]. by rewrite Hpos, Hw, Hnw.
      * intros [= <- <- <-]. eapply runs_step; [|apply runs_refl].
        unfold tstep. cbn [t_pc t_req t_rw]. by rewrite Hpos, Hw, Hnw.
    + intros Hrec. eapply runs_step; [|eapply IH, Hrec].
      unfold tstep. cbn [t_pc t_req t_rw]. by rewrite Hpos.
Qed.

(** The goroutine of a request, run alone, does what [handle] does. *)
Lemma handle_runs fuel s w r s' w' :
  handle fuel s w r = Some (s', w') ->
  runs s (mkThread r w AtStart) s' (mkThread r w' Done).
Proof.
  unfold handle. destruct (negb _) eqn:Hm.
  - intros [= <- <-]. eapply runs_step; [|apply runs_refl].
    unfold tstep. cbn [t_pc t_req t_rw]. by rewrite Hm.
  - intros H. eapply runs_step.
    { unfold tstep. cbn [t_pc t_req t_rw]. by rewrite Hm. }
    unfold openFile in H.
    destruct (LOCK_Lock s) as [s1|] eqn:Hl; [|discriminate].
    eapply runs_step.
    { unfold tstep. cbn [t_pc t_req t_rw]. by rewrite Hl. }
    destruct (probe fuel s1 r (makeName r 0) 0 None) as [[s2 name]|] eqn:Hp;
      [|discriminate].
    destruct (Os.OpenFile s2 name) as [s3 res] eqn:Ho.
    assert (runs s2 (mkThread r w (AtOpen name))
              (LOCK_Unlock s3) (mkThread r w (AtOpened res))) as Hopen.
    { eapply runs_step.
      { unfold tstep. cbn [t_pc t_req t_rw]. by rewrite Ho. }
      eapply runs_step; [|apply runs_refl]. reflexivity. }
    apply (runs_trans _ _ _ _ _ _ (probe_runs r w fuel _ _ _ _ _ _ Hp)).
    apply (runs_trans _ _ _ _ _ _ Hopen).
    destruct res as [f|e].
    + eapply runs_step; [reflexivity|].
      destruct (Io.Copy (LOCK_Unlock s3) f (Body r)) as [[s4 n] err] eqn:Hc.
      pose proof (copy_runs r w f _ _ _ _ _ _ Hc) as Hcopy.
      destruct err as [e|]; injection H as <- <-; exact Hcopy.
    + injection H as <- <-. eapply runs_step; [|apply runs_refl].
      reflexivity.
Qed.

(** The steps of one goroutine are steps of the server. *)
Lemma run_reachable s0 before after n : forall s t,
  reachable s0 (s, before ++ t :: after) ->
  reachable s0 ((run n s t).1, before ++ (run n s t).2 :: after).
Proof.
  induction n as [|n IH]; intros s t Hr; [done|].
  cbn [run]. destruct (tstep s t) as [[s1 t1]|] eqn:Ht; [|done].
  apply IH. eapply reach_step; [exact Hr|]. by apply step_thread.
Qed.

(** C7.  In every state that the server can reach from a state with the
    lock free: at most one goroutine is in the sequence from the return of
    [LOCK.Lock] to the deferred [LOCK.Unlock], which contains the whole name
    probe and the creation of the file, and the lock is held exactly when
    one is; a goroutine that streams a body is not in the sequence, and the
    step that follows the creation of the file releases the lock; so when
    no goroutine is in the sequence, whatever bodies are being streamed, the
    lock is free and every goroutine that waits for it can take it and start
    its name probe. *)
Theorem lock_guards_name_allocation s0 s ts :
  locked s0 = false -> reachable s0 (s, ts) ->
  (in_sequence_count ts <= 1)%nat /\
  (locked s = true <-> in_sequence_count ts = 1%nat) /\
  (forall t, In t ts -> streaming t = true -> in_sequence t = false) /\
  (forall t name s1 t1,
     t_pc t = AtOpen name -> tstep s t = Some (s1, t1) ->
     exists res s2,
       t_pc t1 = AtUnlock res /\
       tstep s1 t1 = Some (s2, at_pc t (AtOpened res)) /\
       locked s2 = false) /\
  ((forall t, In t ts -> in_sequence t = false) ->
   locked s = false /\
   forall t, In t ts -> t_pc t = AtLock ->
     exists s1,
       tstep s t = Some (s1, at_pc t (AtCond (makeName (t_req t) 0) 0 None)) /\
       locked s1 = true).
Proof.
  intros H0 Hr. pose proof (lock_invariant s0 (s, ts) H0 Hr) as Hinv.
  cbn [fst snd] in Hinv. split_and!.
  - rewrite Hinv. destruct (locked s); lia.
  - rewrite Hinv. destruct (locked s); split; intros; try done; lia.
  - intros [r w pc] _. unfold streaming, in_sequence. cbn [t_pc].
    by destruct pc.
  - intros [r w pc] name s1 t1. cbn [t_pc]. intros -> Ht.
    unfold tstep in Ht. cbn [t_pc t_req t_rw] in Ht.
    destruct (Os.OpenFile s name) as [s1' res]. injection Ht as <- <-.
    by exists res, (LOCK_Unlock s1').
  - intros Hnone.
    assert (in_sequence_count ts = 0%nat) as Hz.
    { clear -Hnone. induction ts as [|t ts IH]; [done|].
      rewrite in_sequence_count_cons, (Hnone t) by (by left).
      apply IH. intros t' Ht'. apply Hnone. by right. }
    rewrite Hz in Hinv. destruct (locked s) eqn:Hl; [done|]. split; [done|].
    intros [r w pc] _. cbn [t_pc]. intros ->. unfold tstep, LOCK_Lock.
    cbn [t_pc t_req t_rw]. rewrite Hl. by eexists.
Qed.

Lemma lock_guards_name_allocation_witness :
  (t_pc <$> [first_probing.2; second_waiting.2]
   = [AtCond "192.0.2.7:40112_up_load_000000" 0 None; AtLock] /\
   locked second_waiting.1 = true /\
   tstep second_waiting.1 second_waiting.2 = None) /\
  (in_sequence_count [first_probing.2; second_waiting.2] <= 1)%nat /\
  (locked second_waiting.1 = true <->
   in_sequence_count [first_probing.2; second_waiting.2] = 1%nat) /\
  (forall t, In t [first_probing.2; second_waiting.2] ->
     streaming t = true -> in_sequence t = false) /\
  (forall t name s1 t1,
     t_pc t = AtOpen name -> tstep second_waiting.1 t = Some (s1, t1) ->
     exists res s2,
       t_pc t1 = AtUnlock res /\
       tstep s1 t1 = Some (s2, at_pc t (AtOpened res)) /\
       locked s2 = false) /\
  ((forall t, In t [first_probing.2; second_waiting.2] ->
      in_sequence t = false) ->
   locked second_waiting.1 = false /\
   forall t, In t [first_probing.2; second_waiting.2] -> t_pc t = AtLock ->
     exists s1,
       tstep second_waiting.1 t
       = Some (s1, at_pc t (AtCond (makeName (t_req t) 0) 0 None)) /\
       locked s1 = true).
Proof.
  split; [by vm_compute|].
  apply (lock_guards_name_allocation empty_world second_waiting.1
           [first_probing.2; second_waiting.2]); [reflexivity|].
  apply (run_reachable empty_world [first_probing.2] [] 1 first_probing.1
           (spawn sample_post)).
  apply (reach_step _ (first_probing.1, [] ++ [first_probing.2]));
    [|apply step_accept].
  apply (run_reachable empty_world [] [] 2 empty_world (spawn sample_post)).
  apply (reach_step _ (empty_world, [])); [apply reach_init|].
  apply (step_accept empty_world [] sample_post).
Defined.

(** * Further properties of the handler *)

(** X1.  When the handler returns, the lock is in the state in which the
    handler found it and the open files are those that were open before:
    [openFile] releases the lock when the open fails too, and the file is
    closed on every path.  The failures of the file system are not
    touched. *)
Theorem handle_restores_lock_and_handles fuel s r s' w :
  handle fuel s Http.newResponse r = Some (s', w) ->
  locked s' = locked s /\ handles s' = handles s /\ same_env s s'.
Proof.
  intros Hh.
  destruct (String.eqb_spec Http.MethodPost (Method r)) as [Hm|Hm].
  - symmetry in Hm. pose proof Hh as Hh'.
    rewrite (handle_POST _ _ _ _ Hm) in Hh'.
    destruct (openFile fuel s r) as [[s1 [f|e]]|] eqn:Ho; [| |discriminate].
    + clear Hh'. pose proof (openFile_inv _ _ _ _ _ Ho) as (Hl & _).
      destruct (handle_opened fuel s r s1 f Hm Ho)
        as (s'' & w'' & _ & _ & _ & k & Hh'' & _ & _ & _ & _ & _ & _ &
            Hhs & Hl' & He & _).
      rewrite Hh in Hh''. injection Hh'' as <- <-.
      split_and!; [congruence|done|done].
    + injection Hh' as <- <-.
      pose proof (openFile_inv _ _ _ _ _ Ho) as (Hl & _).
      apply openFile_inr in Ho as (_ & Hhs & Hl' & He).
      split_and!; [cbn; congruence|done|exact He].
  - unfold handle in Hh.
    destruct (String.eqb_spec Http.MethodPost (Method r)); [done|].
    cbn [negb] in Hh. injection Hh as <- <-.
    by split_and!.
Qed.

Lemma handle_restores_lock_and_handles_witness :
  exists s' w,
    handle 4 busy_world Http.newResponse sample_post = Some (s', w) /\
    locked s' = locked busy_world /\ handles s' = handles busy_world /\
    same_env busy_world s'.
Proof.
  eexists _, _. split; [vm_compute; reflexivity|].
  eapply (handle_restores_lock_and_handles 4 busy_world sample_post).
  vm_compute. reflexivity.
Defined.

(** X2.  What a response tells about the directory.  When the handler
    returns, one of four things has happened: the method was not POST, the
    status is 405 and the directory is unchanged; or the status is 500 with
    the body ["open"] and a newline, and the directory is unchanged; or the
    status is 500 with the body ["write"] and a newline, and one entry has
    been added, which holds a prefix of the request body; or the status is
    200, the body is the length of the request body, and one entry has been
    added, which holds the whole request body. *)
Theorem handle_response_cases fuel s r s' w :
  handle fuel s Http.newResponse r = Some (s', w) ->
  (Method r <> Http.MethodPost /\
   status w = Http.StatusMethodNotAllowed /\ files s' = files s) \/
  (Method r = Http.MethodPost /\
   status w = Http.StatusInternalServerError /\
   written w = "open" +:+ newline /\ files s' = files s) \/
  (Method r = Http.MethodPost /\
   status w = Http.StatusInternalServerError /\
   written w = "write" +:+ newline /\
   exists name (k : nat),
     (k <= length (bytes_of r))%nat /\ files s !! name = None /\
     files s' = <[name := take k (bytes_of r)]> (files s)) \/
  (Method r = Http.MethodPost /\
   status w = Http.StatusOK /\
   written w = Fmt.fmt_v (Z.of_nat (length (bytes_of r))) /\
   exists name,
     files s !! name = None /\
     files s' = <[name := bytes_of r]> (files s)).
Proof.
  intros Hh.
  destruct (String.eqb_spec Http.MethodPost (Method r)) as [Hm|Hm].
  - symmetry in Hm. right. pose proof Hh as Hh'.
    rewrite (handle_POST _ _ _ _ Hm) in Hh'.
    destruct (openFile fuel s r) as [[s1 [f|e]]|] eqn:Ho; [| |discriminate].
    + clear Hh'. right.
      pose proof (openFile_inl _ _ _ _ _ Ho) as (Hnone & _).
      destruct (handle_opened fuel s r s1 f Hm Ho)
        as (s'' & w'' & _ & n & err & k & Hh'' & _ & Hk & Hn & _ & Hall &
            Hfiles & _ & _ & _ & _ & Hw).
      rewrite Hh in Hh''. injection Hh'' as <- <-.
      destruct err as [e|].
      * left. subst w. split_and!; try done. by exists (Name f), k.
      * right. specialize (Hall eq_refl). subst k w n.
        rewrite firstn_all in Hfiles. split_and!; try done.
        by exists (Name f).
    + left. injection Hh' as <- <-. apply openFile_inr in Ho as (Hf & _).
      by split_and!.
  - left. unfold handle in Hh.
    destruct (String.eqb_spec Http.MethodPost (Method r)); [done|].
    cbn [negb] in Hh. injection Hh as <- <-.
    by split_and!.
Qed.

Lemma handle_response_cases_witness :
  exists s' w,
    handle 4 busy_world Http.newResponse broken_post = Some (s', w) /\
    ((Method broken_post <> Http.MethodPost /\
      status w = Http.StatusMethodNotAllowed /\ files s' = files busy_world) \/
     (Method broken_post = Http.MethodPost /\
      status w = Http.StatusInternalServerError /\
      written w = "open" +:+ newline /\ files s' = files busy_world) \/
     (Method broken_post = Http.MethodPost /\
      status w = Http.StatusInternalServerError /\
      written w = "write" +:+ newline /\
      exists name (k : nat),
        (k <= length (bytes_of broken_post))%nat /\
        files busy_world !! name = None /\
        files s' = <[name := take k (bytes_of broken_post)]> (files busy_world)) \/
     (Method broken_post = Http.MethodPost /\
      status w = Http.StatusOK /\
      written w = Fmt.fmt_v (Z.of_nat (length (bytes_of broken_post))) /\
      exists name,
        files busy_world !! name = None /\
        files s' = <[name := bytes_of broken_post]> (files busy_world))).
Proof.
  eexists _, _. split; [vm_compute; reflexivity|].
  eapply (handle_response_cases 4 busy_world broken_post).
  vm_compute. reflexivity.
Defined.

Lemma handle_size fuel s r s' w :
  handle fuel s Http.newResponse r = Some (s', w) ->
  size (files s') = (size (files s) + if created_file w then 1 else 0)%nat.
Proof.
  intros Hh.
  destruct (String.eqb_spec Http.MethodPost (Method r)) as [Hm|Hm].
  - symmetry in Hm. pose proof Hh as Hh'.
    rewrite (handle_POST _ _ _ _ Hm) in Hh'.
    destruct (openFile fuel s r) as [[s1 [f|e]]|] eqn:Ho; [| |discriminate].
    + clear Hh'. pose proof (openFile_inl _ _ _ _ _ Ho) as (Hnone & _).
      destruct (handle_opened fuel s r s1 f Hm Ho)
        as (s'' & w'' & _ & n & err & k & Hh'' & _ & _ & _ & _ & _ &
            Hfiles & _ & _ & _ & _ & Hw).
      rewrite Hh in Hh''. injection Hh'' as <- <-.
      rewrite Hfiles, map_size_insert_None by done.
      assert (created_file w = true) as ->
        by (destruct err; subst w; reflexivity).
      cbv iota. lia.
    + injection Hh' as <- <-. apply openFile_inr in Ho as (Hf & _).
      change (created_file _) with false.
      change (files (Body_Close ?x)) with (files x).
      change (files (emit ?x _)) with (files x). rewrite Hf. cbv iota. lia.
  - unfold handle in Hh.
    destruct (String.eqb_spec Http.MethodPost (Method r)); [done|].
    cbn [negb] in Hh. injection Hh as <- <-.
    change (created_file _) with false.
    change (files (Body_Close ?x)) with (files x).
    change (files (emit ?x _)) with (files x). cbv iota. lia.
Qed.

(** X3.  However many requests are served one after the other, the
    directory only grows: every file that existed before is still there
    with the same content, there is one response for each request, and the
    number of entries has grown by the number of responses that report a
    success or a failed transfer, so no two of these requests share a
    file. *)
Theorem handle_all_only_adds_files fuel rs : forall s s' ws,
  handle_all fuel s rs = Some (s', ws) ->
  length ws = length rs /\
  (forall name c, files s !! name = Some c -> files s' !! name = Some c) /\
  size (files s') = (size (files s) + length (List.filter created_file ws))%nat.
Proof.
  induction rs as [|r rs IH]; intros s s' ws; cbn [handle_all].
  - intros [= <- <-]. cbn. split_and!; [done|done|lia].
  - destruct (handle fuel s Http.newResponse r) as [[s1 w]|] eqn:Hh;
      [|discriminate].
    destruct (handle_all fuel s1 rs) as [[s2 ws']|] eqn:Hrest; [|discriminate].
    intros [= <- <-]. destruct (IH _ _ _ Hrest) as (Hlen & Hkeep & Hsize).
    split_and!.
    + cbn. by rewrite Hlen.
    + intros name c Hc. apply Hkeep.
      by apply (handle_keeps_existing_files fuel s r s1 w).
    + rewrite Hsize, (handle_size _ _ _ _ _ Hh). cbn [List.filter].
      destruct (created_file w); cbn [length]; cbv iota; lia.
Qed.

Lemma handle_all_only_adds_files_witness :
  exists s' ws,
    handle_all 4 busy_world [sample_post; sample_get; broken_post; sample_post]
    = Some (s', ws) /\
    length ws = 4%nat /\
    (forall name c,
       files busy_world !! name = Some c -> files s' !! name = Some c) /\
    size (files s')
    = (size (files busy_world) + length (List.filter created_file ws))%nat.
Proof.
  eexists _, _. split; [vm_compute; reflexivity|].
  eapply (handle_all_only_adds_files 4
            [sample_post; sample_get; broken_post; sample_post] busy_world).
  vm_compute. reflexivity.
Defined.

Lemma fmt_v_head n :
  0 <= n -> exists d rest, 0 <= d <= 9 /\ Fmt.fmt_v n = String (Fmt.digit_char d) rest.
Proof.
  intros H. unfold Fmt.fmt_v, Fmt.fmtInteger.
  destruct (Z.ltb_spec n 0); [lia|]. rewrite Z.abs_eq by lia.
  change (Fmt.zeros (0 - ?x)) with EmptyString.
  change (EmptyString +:+ ?x) with x.
  by apply fmt_digits_head.
Qed.

Lemma fmt_v_not_open n : 0 <= n -> Fmt.fmt_v n <> "open" +:+ newline.
Proof.
  intros H Heq. destruct (fmt_v_head n H) as (d & rest & Hd & Hv).
  rewrite Hv in Heq. injection Heq as Hc _.
  assert (d = 0 \/ d = 1 \/ d = 2 \/ d = 3 \/ d = 4 \/ d = 5 \/ d = 6 \/
          d = 7 \/ d = 8 \/ d = 9) as Hcases by lia.
  repeat destruct Hcases as [->|Hcases]; try subst d; discriminate Hc.
Qed.

(** X4.  A POST request that finds the lock free is answered as soon as
    some candidate is reported not to exist.  It is refused with status 500
    and the body ["open"] and a newline exactly when the name after the
    first such candidate cannot be created, because it is taken or because
    the open fails, and the directory is then unchanged.  Otherwise the
    request creates that name, and no other, and the new file holds a
    prefix of the request body. *)
Theorem post_refused_iff_next_name_taken fuel s r k :
  Method r = Http.MethodPost -> locked s = false ->
  first_free s r k -> (k < fuel)%nat ->
  exists s' w,
    handle fuel s Http.newResponse r = Some (s', w) /\
    (status w = Http.StatusInternalServerError /\
     written w = "open" +:+ newline <->
     Os.open_result s (candidate r (S k)) <> None) /\
    (written w = "open" +:+ newline <->
     Os.open_result s (candidate r (S k)) <> None) /\
    (Os.open_result s (candidate r (S k)) <> None -> files s' = files s) /\
    (Os.open_result s (candidate r (S k)) = None ->
     exists j : nat,
       (j <= length (bytes_of r))%nat /\
       files s' = <[candidate r (S k) := take j (bytes_of r)]> (files s)).
Proof.
  intros Hm Hl Hff Hk.
  pose proof (openFile_spec fuel s r k Hl Hff Hk) as Ho.
  destruct (probed_fields s r k) as (Pf & _ & _ & _ & Pe).
  assert (Os.open_result (probed s r k) (candidate r (S k))
          = Os.open_result s (candidate r (S k))) as Hor.
  { unfold Os.open_result. destruct Pe as (_ & -> & _). by rewrite Pf. }
  unfold Os.OpenFile in Ho. rewrite Hor in Ho.
  destruct (Os.open_result s (candidate r (S k))) as [e|] eqn:Hres.
  - rewrite (handle_POST _ _ _ _ Hm), Ho. eexists _, _.
    split; [reflexivity|]. split_and!.
    + by split.
    + by split.
    + intros _. cbn [Body_Close emit LOCK_Unlock set_locked files].
      exact Pf.
    + done.
  - cbv zeta in Ho.
    destruct (handle_opened fuel s r _ _ Hm Ho)
      as (s' & w & _ & n & err & j & Hh & _ & Hj & Hn & _ & _ & Hfiles & _ &
          _ & _ & _ & Hw).
    assert (written w <> "open" +:+ newline) as Hno.
    { intros Hopen. destruct err; subst w.
      - discriminate Hopen.
      - apply (fmt_v_not_open n); [lia|exact Hopen]. }
    exists s', w. split; [done|]. split_and!.
    + split; [|done]. by intros [_ Hopen].
    + split; [|done]. by intros Hopen.
    + done.
    + intros _. by exists j.
Qed.

Lemma post_refused_iff_next_name_taken_witness :
  exists s' w,
    handle 4 busy_world Http.newResponse sample_post = Some (s', w) /\
    (status w = Http.StatusInternalServerError /\
     written w = "open" +:+ newline <->
     Os.open_result busy_world "192.0.2.7:40112_up_load_000002" <> None) /\
    (written w = "open" +:+ newline <->
     Os.open_result busy_world "192.0.2.7:40112_up_load_000002" <> None) /\
    (Os.open_result busy_world "192.0.2.7:40112_up_load_000002" <> None ->
     files s' = files busy_world) /\
    (Os.open_result busy_world "192.0.2.7:40112_up_load_000002" = None ->
     exists j : nat,
       (j <= length (bytes_of sample_post))%nat /\
       files s' = <["192.0.2.7:40112_up_load_000002"
                    := take j (bytes_of sample_post)]> (files busy_world)).
Proof.
  apply (post_refused_iff_next_name_taken 4 busy_world sample_post 1).
  - reflexivity.
  - reflexivity.
  - split; [reflexivity|]. intros i Hi.
    assert (i = 0%nat) as -> by lia. vm_compute. discriminate.
  - lia.
Defined.

(** * Further properties of the names *)

(** X5.  As long as the sequence number has not wrapped around, different
    iterations of the loop of [openFile] examine different names: the
    candidates of a request are pairwise distinct. *)
Theorem candidates_distinct r j k :
  Z.of_nat j <= MaxInt -> Z.of_nat k <= MaxInt ->
  j <> k -> candidate r j <> candidate r k.
Proof.
  intros Hj Hk Hne Heq. unfold candidate in Heq.
  apply makeName_inj_num in Heq; try apply nth_num_range.
  rewrite !nth_num_small in Heq by done. lia.
Qed.

Lemma candidates_distinct_witness :
  candidate sample_post 9 <> candidate sample_post 10.
Proof.
  apply (candidates_distinct sample_post 9 10).
  - vm_compute. discriminate.
  - vm_compute. discriminate.
  - lia.
Defined.

Lemma digit_char_no_underscore d :
  0 <= d <= 9 -> Ascii.eqb (Fmt.digit_char d) "_" = false.
Proof.
  intros H.
  assert (d = 0 \/ d = 1 \/ d = 2 \/ d = 3 \/ d = 4 \/ d = 5 \/ d = 6 \/
          d = 7 \/ d = 8 \/ d = 9) as Hd by lia.
  repeat destruct Hd as [->|Hd]; try subst d; reflexivity.
Qed.

Lemma has_underscore_app a b :
  has_underscore (a +:+ b) = has_underscore a || has_underscore b.
Proof.
  induction a as [|c a IH]; [done|]. rewrite string_app_cons.
  cbn [has_underscore]. rewrite IH. by rewrite orb_assoc.
Qed.

Lemma has_underscore_fmt_digits fuel : forall u acc,
  0 <= u -> has_underscore (Fmt.fmt_digits fuel u acc) = has_underscore acc.
Proof.
  induction fuel as [|fuel IH]; intros u acc Hu; [done|].
  cbn [Fmt.fmt_digits]. destruct (Z.ltb_spec u 10).
  - cbn [has_underscore]. by rewrite digit_char_no_underscore by lia.
  - rewrite IH by (apply Z.div_pos; lia). cbn [has_underscore].
    pose proof (Z.mod_pos_bound u 10 ltac:(lia)).
    by rewrite digit_char_no_underscore by lia.
Qed.

Lemma has_underscore_zeros n : has_underscore (Fmt.zeros n) = false.
Proof. induction n as [|n IH]; [done|]. exact IH. Qed.

Lemma has_underscore_fmt_06v n : has_underscore (Fmt.fmt_06v n) = false.
Proof.
  unfold Fmt.fmt_06v, Fmt.fmtInteger.
  assert (has_underscore (Fmt.fmt_digits 20 (Z.abs n) "") = false) as Hd.
  { rewrite has_underscore_fmt_digits by lia. done. }
  destruct (n <? 0); cbn [has_underscore];
    rewrite has_underscore_app, has_underscore_zeros, Hd; done.
Qed.

Lemma after_last_underscore_app a b :
  has_underscore b = false -> after_last_underscore (a +:+ String "_" b) = b.
Proof.
  intros Hb. induction a as [|c a IH].
  - change ("" +:+ ?x) with x. cbn [after_last_underscore]. by rewrite Hb.
  - rewrite string_app_cons. cbn [after_last_underscore].
    rewrite has_underscore_app. cbn [has_underscore].
    rewrite orb_true_r. exact IH.
Qed.

Lemma fmt_digits_grows fuel : forall u acc,
  (String.length acc <= String.length (Fmt.fmt_digits fuel u acc))%nat.
Proof.
  induction fuel as [|fuel IH]; intros u acc; [done|].
  cbn [Fmt.fmt_digits]. destruct (u <? 10).
  - cbn [String.length]. lia.
  - specialize (IH (u / 10) (String (Fmt.digit_char (u mod 10)) acc)).
    cbn [String.length] in IH. lia.
Qed.

(** A number of at least [10 ^ k] is printed with more than [k] digits. *)
Lemma fmt_digits_long fuel : forall k u acc,
  (k < fuel)%nat -> 10 ^ Z.of_nat k <= u ->
  (k + 1 + String.length acc <= String.length (Fmt.fmt_digits fuel u acc))%nat.
Proof.
  induction fuel as [|fuel IH]; intros k u acc Hk Hu; [lia|].
  cbn [Fmt.fmt_digits]. destruct (Z.ltb_spec u 10) as [Hlt|Hge].
  - destruct k as [|k]; [cbn [String.length]; lia|].
    rewrite Nat2Z.inj_succ, Z.pow_succ_r in Hu by lia.
    pose proof (Z.pow_pos_nonneg 10 (Z.of_nat k) ltac:(lia) ltac:(lia)). lia.
  - destruct k as [|k].
    + pose proof (fmt_digits_grows fuel (u / 10)
                    (String (Fmt.digit_char (u mod 10)) acc)) as Hg.
      cbn [String.length] in Hg. lia.
    + specialize (IH k (u / 10) (String (Fmt.digit_char (u mod 10)) acc)
                    ltac:(lia)).
      cbn [String.length] in IH.
      assert (10 ^ Z.of_nat k <= u / 10) as Hdiv.
      { rewrite Nat2Z.inj_succ, Z.pow_succ_r in Hu by lia.
        apply Z.div_le_lower_bound; lia. }
      specialize (IH Hdiv). lia.
Qed.

(** X6.  The sequence number can be read back from every name that
    [makeName] makes, whatever the remote endpoint and the path contain: it
    is the decimal value of what follows the last underscore.  The six
    digits are a least width: from a million on the number takes more
    room. *)
Theorem makeName_number_round_trip r n :
  MinInt <= n <= MaxInt ->
  number_of_name (makeName r n) = Some n /\
  (1000000 <= n -> (7 <= String.length (Fmt.fmt_06v n))%nat).
Proof.
  intros Hn. split.
  - assert (forall a c f : string,
              a +:+ "_" +:+ c +:+ "_" +:+ f = (a +:+ "_" +:+ c) +:+ String "_" f)
      as Hshape.
    { intros a c f. rewrite !string_app_assoc. reflexivity. }
    unfold number_of_name, makeName. rewrite Hshape.
    rewrite after_last_underscore_app by apply has_underscore_fmt_06v.
    by apply fmt_06v_decimal.
  - intros Hbig. unfold Fmt.fmt_06v, Fmt.fmtInteger.
    destruct (Z.ltb_spec n 0); [lia|]. rewrite Z.abs_eq by lia.
    rewrite string_length_app.
    pose proof (fmt_digits_long 20 6 n EmptyString ltac:(lia)
                  ltac:(cbn; lia)) as Hl.
    cbn [String.length] in Hl. lia.
Qed.

Lemma makeName_number_round_trip_witness :
  number_of_name (makeName slash_endpoint_post 1234567) = Some 1234567 /\
  (1000000 <= 1234567 -> (7 <= String.length (Fmt.fmt_06v 1234567))%nat).
Proof.
  apply (makeName_number_round_trip slash_endpoint_post 1234567).
  vm_compute. split; discriminate.
Defined.

(** * Further properties of the start-up *)

(** X7.  A process that reaches a serve loop has got its working directory,
    has made and entered the output directory, and holds a listener that
    was bound without error.  [-http] is looked at first: with it the
    listener is plaintext TCP on the listen address, also when [-fcgi] is
    given, and FastCGI is then spoken over TCP.  Without [-http], [-fcgi]
    gives a Unix socket, at the listen address if that is absolute and at
    the address joined to the original working directory otherwise.  With
    neither flag the key pair has been loaded and the listener is TLS over
    TCP. *)
Theorem main_serve_inv sys cwd0 fl srv l :
  main sys cwd0 fl = Serve srv l ->
  getwd_err sys = None /\ mkdirall_err sys (dir fl) = None /\
  chdir_err sys (dir fl) = None /\
  listen_err sys (network l) (address l) = None /\
  srv = (if serveFCGI fl then ServeFastCGI else ServeHTTP) /\
  if plaintext fl then
    network l = "tcp"%string /\ address l = laddr fl /\ tls l = false /\
    bound_at l = None
  else if serveFCGI fl then
    network l = "unix"%string /\ tls l = false /\
    address l = (if Filepath.IsAbs (laddr fl) then laddr fl
                 else Filepath.Join [cwd0; laddr fl])
  else
    network l = "tcp"%string /\ address l = laddr fl /\ tls l = true /\
    keypair_err sys (cert fl) (key fl) = None.
Proof.
  unfold main.
  destruct (getwd_err sys); [discriminate|].
  destruct (mkdirall_err sys (dir fl)); [discriminate|].
  destruct (chdir_err sys (dir fl)); [discriminate|].
  destruct (plaintext fl).
  - destruct (listen_err sys "tcp" (laddr fl)) eqn:Hl; [discriminate|].
    intros [= <- <-]. by split_and!.
  - destruct (serveFCGI fl).
    + cbv zeta. destruct (Filepath.IsAbs (laddr fl)); cbn [negb].
      * destruct (listen_err sys "unix" (laddr fl)) eqn:Hl; [discriminate|].
        intros [= <- <-]. by split_and!.
      * destruct (listen_err sys "unix" _) eqn:Hl; [discriminate|].
        intros [= <- <-]. by split_and!.
    + destruct (keypair_err sys (cert fl) (key fl)) eqn:Hk; [discriminate|].
      destruct (listen_err sys "tcp" (laddr fl)) eqn:Hl; [discriminate|].
      intros [= <- <-]. by split_and!.
Qed.

Lemma main_serve_inv_witness :
  exists srv l,
    main quiet_sys "/srv/app" http_fcgi_flags = Serve srv l /\
    getwd_err quiet_sys = None /\
    mkdirall_err quiet_sys (dir http_fcgi_flags) = None /\
    chdir_err quiet_sys (dir http_fcgi_flags) = None /\
    listen_err quiet_sys (network l) (address l) = None /\
    srv = ServeFastCGI /\
    network l = "tcp"%string /\ address l = "127.0.0.1:9000"%string /\
    tls l = false /\ bound_at l = None.
Proof.
  eexists _, _. split; [reflexivity|].
  eapply (main_serve_inv quiet_sys "/srv/app" http_fcgi_flags).
  reflexivity.
Defined.





(** * Further properties of concurrent requests *)

Lemma Write_files s f b s' nw ew :
  Os.Write s f b = (s', nw, ew) ->
  files s' = <[Name f := Os.content s (Name f) ++ take nw b]> (files s).
Proof.
  unfold Os.Write. destruct (_ <=? _).
  - intros [= <- <- <-]. by rewrite firstn_all.
  - by intros [= <- <- <-].
Qed.

Lemma owned_names_middle before t after :
  owned_names (before ++ t :: after)
  = owned_names before ++ option_list (owned t) ++ owned_names after.
Proof.
  unfold owned_names. rewrite omap_app. f_equal. cbn [omap list_omap].
  by destruct (owned t).
Qed.

Lemma owned_exists s t name :
  thread_ok s t -> owned t = Some name -> is_Some (files s !! name).
Proof.
  destruct t as [r w pc]. unfold thread_ok, owned. cbn [t_pc t_req t_rw].
  destruct pc as [| | | |[f|e]|[f|e]|f cs n|]; try discriminate.
  - intros [H _] [= <-]. by eexists.
  - intros [H _] [= <-]. by eexists.
  - intros (done & _ & H & _) [= <-]. by eexists.
Qed.

Lemma thread_ok_frame s s' t :
  thread_ok s t ->
  (forall name, owned t = Some name -> files s' !! name = files s !! name) ->
  thread_ok s' t.
Proof.
  destruct t as [r w pc]. unfold thread_ok, owned. cbn [t_pc t_req t_rw].
  destruct pc as [| | | |[f|e]|[f|e]|f cs n|]; try done.
  - intros [H ?] Hf. by rewrite Hf.
  - intros [H ?] Hf. by rewrite Hf.
  - intros (done & ? & H & ?) Hf. exists done. by rewrite Hf.
Qed.

(** A step of a goroutine keeps what holds for it, changes no file but its
    own or the one that it creates, and takes a file only by creating a
    name that was not in the directory. *)
Lemma tstep_owned s t s' t' :
  tstep s t = Some (s', t') -> thread_ok s t ->
  thread_ok s' t' /\
  (forall name, is_Some (files s !! name) -> owned t <> Some name ->
     files s' !! name = files s !! name) /\
  (owned t' = owned t \/ owned t' = None \/
   exists name, owned t' = Some name /\ files s !! name = None).
Proof.
  destruct t as [r w pc]. unfold tstep, thread_ok, owned.
  cbn [t_pc t_req t_rw]. destruct pc as [| |name num err|name|res|res|f cs n|].
  - intros Ht Hok. destruct (negb _); injection Ht as <- <-;
      split_and!; try done; by left.
  - unfold LOCK_Lock. destruct (locked s); [discriminate|].
    intros [= <- <-] Hok. split_and!; try done. by left.
  - intros Ht Hok. destruct (keep_trying err).
    + destruct (Os.Stat s name) as [s1 err1] eqn:Hs.
      injection Ht as <- <-. cbn [at_pc t_pc t_rw t_req].
      assert (files s1 = files s) as Hf.
      { unfold Os.Stat in Hs. by injection Hs as <- _. }
      rewrite Hf. split_and!; try done. by left.
    + injection Ht as <- <-. split_and!; try done. by left.
  - intros Ht Hok. destruct (Os.OpenFile s name) as [s1 res] eqn:Ho.
    injection Ht as <- <-. destruct res as [f|e].
    + apply OpenFile_inl in Ho as (Hn & Hnone & _ & Hfiles & _).
      cbn [at_pc t_pc t_rw]. rewrite Hn, Hfiles. split_and!.
      * by rewrite lookup_insert_eq.
      * done.
      * intros name' [c Hc] _. rewrite lookup_insert_ne; [done|].
        intros <-. congruence.
      * right. right. by exists name.
    + apply OpenFile_inr in Ho as (_ & ->). split_and!; try done. by left.
  - intros [= <- <-] Hok. cbn [at_pc t_pc t_rw]. destruct res as [f|e].
    + destruct Hok as [Hnew Hrw]. split_and!; try done. by left.
    + split_and!; try done. by left.
  - intros Ht Hok. destruct res as [f|e]; injection Ht as <- <-.
    + destruct Hok as [Hnew Hrw]. cbn [at_pc t_pc t_rw t_req].
      split_and!; try done; [|by left].
      exists []. split_and!; try done; unfold MaxInt, intSize; lia.
    + split_and!; try done. by right; left.
  - intros Ht (done & Hbody & Hcur & Hn & Hmax & Hrw).
    destruct cs as [|c cs].
    + destruct (decide _); injection Ht as <- <-;
        split_and!; try done; by right; left.
    + destruct (Nat.ltb_spec 0 (length c)) as [Hpos|Hz].
      * destruct (Os.Write _ f c) as [[s1 nw] ew] eqn:Hw.
        pose proof (Write_spec (emit s (EvRead (length c) None))
                      f c s1 nw ew done Hcur Hw)
          as (Hle & Hall & Hbound & Hfiles & _).
        cbn [files emit] in Hfiles.
        assert (forall name, is_Some (files s !! name) ->
                  Some (Name f) <> Some name ->
                  files s1 !! name = files s !! name) as Hframe.
        { intros name _ Hne. rewrite Hfiles, lookup_insert_ne; [done|].
          intros Heq. apply Hne. by rewrite Heq. }
        destruct ew as [e|]; [|destruct (Nat.eqb_spec nw (length c)) as [->|Hne]].
        -- injection Ht as <- <-. split_and!; try done. by right; left.
        -- injection Ht as <- <-. cbn [at_pc t_pc t_rw t_req].
           rewrite firstn_all in Hfiles. split_and!; try done; [|by left].
           exists (done ++ c). rewrite Hfiles, lookup_insert_eq.
           assert (int_add n (Z.of_nat (length c))
                   = Z.of_nat (length (done ++ c))) as ->.
           { rewrite length_app, int_add_small; unfold MinInt, intSize; lia. }
           split_and!; try done.
           ++ rewrite Hbody. cbn [concat]. by rewrite <- app_assoc.
           ++ rewrite length_app. lia.
        -- injection Ht as <- <-. split_and!; try done. by right; left.
      * injection Ht as <- <-. cbn [at_pc t_pc t_rw t_req].
        assert (c = []) as -> by (destruct c; [done|cbn in Hz; lia]).
        split_and!; try done; [|by left]. by exists done.
  - discriminate.
Qed.

(** The step with which a goroutine answers 200 is the end of the transfer
    of the whole body into the file that the goroutine holds. *)
Lemma tstep_done s t s' t' :
  tstep s t = Some (s', t') -> thread_ok s t ->
  t_pc t' = Done -> status (t_rw t') = Http.StatusOK ->
  exists name,
    owned t = Some name /\
    files s' !! name = Some (bytes_of (t_req t')) /\
    written (t_rw t')
    = Fmt.fmt_v (Z.of_nat (length (bytes_of (t_req t')))).
Proof.
  destruct t as [r w pc]. unfold tstep, thread_ok, owned.
  cbn [t_pc t_req t_rw]. destruct pc as [| |name num err|name|res|res|f cs n|].
  - intros Ht ->. destruct (negb _); injection Ht as <- <-; [|done].
    intros _ Hst. by vm_compute in Hst.
  - destruct (LOCK_Lock s); [|done]. by intros [= <- <-].
  - intros Ht _. destruct (keep_trying err); [destruct (Os.Stat s name)|];
      by injection Ht as <- <-.
  - intros Ht _. destruct (Os.OpenFile s name). by injection Ht as <- <-.
  - by intros [= <- <-].
  - intros Ht Hok. destruct res as [f|e]; injection Ht as <- <-; [done|].
    rewrite Hok. intros _ Hst. by vm_compute in Hst.
  - intros Ht (done & Hbody & Hcur & Hn & Hmax & ->).
    destruct cs as [|c cs].
    + destruct (decide _); injection Ht as <- <-; intros _ Hst;
        [|by vm_compute in Hst].
      exists (Name f). cbn [concat] in Hbody. rewrite app_nil_r in Hbody.
      cbn [finish t_req t_rw]. rewrite Hbody, <- Hn. by split_and!.
    + destruct (0 <? length c)%nat; [|by injection Ht as <- <-].
      destruct (Os.Write _ f c) as [[s1 nw] ew].
      destruct ew as [e|]; [|destruct (nw =? length c)%nat];
        injection Ht as <- <-; try done; intros _ Hst; by vm_compute in Hst.
  - discriminate.
Qed.

Lemma owned_names_exist s ts name :
  Forall (thread_ok s) ts -> name ∈ owned_names ts ->
  is_Some (files s !! name).
Proof.
  intros Hok Hin. apply list_elem_of_omap in Hin as (t & Hin & Ho).
  eapply owned_exists; [|exact Ho]. by eapply Forall_forall in Hok.
Qed.

Lemma NoDup_middle (B A : list string) (o o' : option string) :
  NoDup (B ++ option_list o ++ A) ->
  o' = o \/ o' = None \/ (exists n, o' = Some n /\ (n ∉ B) /\ (n ∉ A)) ->
  NoDup (B ++ option_list o' ++ A).
Proof.
  intros H Ho.
  assert (NoDup (B ++ A)) as HBA.
  { apply NoDup_app in H as (HB & Hdis & HoA).
    apply NoDup_app in HoA as (_ & _ & HA). apply NoDup_app.
    split_and!; [done| |done]. intros x Hx Hx'. apply (Hdis x Hx).
    apply elem_of_app. by right. }
  destruct Ho as [->|[->|(n & -> & HnB & HnA)]]; [done|done|].
  cbn [option_list app]. apply NoDup_app in HBA as (HB & Hdis & HA).
  apply NoDup_app. split_and!; [done| |].
  - intros x Hx [->|Hx']%elem_of_cons; [done|]. by apply (Hdis x).
  - by apply NoDup_cons.
Qed.

Lemma middle_not_owned (B A : list string) (o : option string) name :
  NoDup (B ++ option_list o ++ A) -> name ∈ B ++ A -> o <> Some name.
Proof.
  intros H Hin ->. cbn [option_list app] in H.
  apply NoDup_app in H as (_ & Hdis & HnA). apply NoDup_cons in HnA as [HnA _].
  apply elem_of_app in Hin as [Hin|Hin]; [|done].
  apply (Hdis name Hin). by left.
Qed.

(** Every step of the server keeps the goroutines apart. *)
Lemma isolated_step st st' : isolated st -> step st st' -> isolated st'.
Proof.
  intros (Hnd & Hok & Hst) Hstep.
  destruct Hstep as [s ts r|s s' t t' before after Ht]; cbn [fst snd] in *.
  - assert (owned_names (ts ++ [mkThread r Http.newResponse AtStart])
            = owned_names ts) as Hon.
    { unfold owned_names. rewrite omap_app. cbn. by rewrite app_nil_r. }
    unfold isolated. cbn [fst snd]. rewrite Hon. split_and!; [done| |].
    + apply Forall_app. split; [done|]. by apply Forall_cons.
    + apply Forall_app. split.
      * eapply Forall_impl; [exact Hst|]. intros u Hu Hd H2.
        destruct (Hu Hd H2) as (name & ? & ? & ?). exists name.
        cbn [fst snd] in *. by rewrite Hon.
      * apply Forall_cons. split; [|done]. by intros Hd.
  - rewrite owned_names_middle in Hnd.
    apply Forall_app in Hok as [HokB Hok]. apply Forall_cons in Hok as [Hokt HokA].
    apply Forall_app in Hst as [HstB Hst]. apply Forall_cons in Hst as [_ HstA].
    pose proof (tstep_owned _ _ _ _ Ht Hokt) as (Hokt' & Hframe & Hown).
    assert (forall name, name ∈ owned_names before ++ owned_names after ->
              is_Some (files s !! name)) as Hex.
    { intros name [Hin|Hin]%elem_of_app;
        eapply owned_names_exist; try exact Hin; done. }
    assert (forall u, thread_ok s u ->
              (forall name, owned u = Some name ->
                 name ∈ owned_names before ++ owned_names after) ->
              thread_ok s' u) as Hkeep.
    { intros u Hu Hin. apply (thread_ok_frame s); [done|].
      intros name Ho. apply Hframe; [by apply Hex, Hin|].
      eapply middle_not_owned; [exact Hnd|]. by apply Hin. }
    assert (NoDup (owned_names (before ++ t' :: after))) as Hnd'.
    { rewrite owned_names_middle. eapply NoDup_middle; [exact Hnd|].
      destruct Hown as [->|[->|(n & -> & Hn)]]; [by left|by right; left|].
      right. right. exists n. split; [done|].
      split; intros Hin;
        (assert (is_Some (files s !! n)) as [c Hc];
         [apply Hex, elem_of_app; by eauto|congruence]). }
    assert (forall u, stored (s, before ++ t :: after) u ->
              stored (s', before ++ t' :: after) u) as Hsk.
    { intros u Hu Hd H2. destruct (Hu Hd H2) as (name & Hf & Hno & Hw).
      cbn [fst snd] in *. rewrite owned_names_middle in Hno.
      exists name. split_and!; [| |done].
      - rewrite Hframe; [done|by eexists|].
        intros Ho. apply Hno. rewrite Ho. cbn [option_list].
        apply elem_of_app. right. by left.
      - rewrite owned_names_middle. intros Hin. apply Hno.
        apply elem_of_app in Hin as [Hin|Hin]; [apply elem_of_app; by left|].
        apply elem_of_app. right.
        apply elem_of_app in Hin as [Hin|Hin]; [|apply elem_of_app; by right].
        exfalso. destruct Hown as [Ho|[Ho|(n & Ho & Hn)]]; rewrite Ho in Hin.
        + apply Hno. apply elem_of_app. right. apply elem_of_app. by left.
        + by apply elem_of_nil in Hin.
        + apply list_elem_of_singleton in Hin as ->. congruence. }
    unfold isolated. cbn [fst snd]. split_and!; [done| |].
    + apply Forall_app. split; [|apply Forall_cons; split; [done|]].
      * apply Forall_forall. intros u Hu. apply Hkeep.
        -- by eapply Forall_forall in HokB.
        -- intros name Ho. apply elem_of_app. left.
           apply list_elem_of_omap. by exists u.
      * apply Forall_forall. intros u Hu. apply Hkeep.
        -- by eapply Forall_forall in HokA.
        -- intros name Ho. apply elem_of_app. right.
           apply list_elem_of_omap. by exists u.
    + apply Forall_app. split; [|apply Forall_cons; split].
      * eapply Forall_impl; [exact HstB|]. exact Hsk.
      * intros Hd H2.
        destruct (tstep_done _ _ _ _ Ht Hokt Hd H2) as (name & Ho & Hf & Hw).
        exists name. cbn [fst snd]. split_and!; [done| |done].
        rewrite owned_names_middle.
        assert (owned t' = None) as -> by (unfold owned; by rewrite Hd).
        cbn [option_list app]. intros Hin.
        by apply (middle_not_owned _ _ _ _ Hnd Hin).
      * eapply Forall_impl; [exact HstA|]. exact Hsk.
Qed.

Lemma reachable_isolated s0 st : reachable s0 st -> isolated st.
Proof.
  induction 1 as [|st st' _ IH Hstep].
  - unfold isolated. cbn. split_and!; [apply NoDup_nil_2|done|done].
  - by eapply isolated_step.
Qed.

Lemma run_steps before after n : forall s t,
  rtc step (s, before ++ t :: after)
           ((run n s t).1, before ++ (run n s t).2 :: after).
Proof.
  induction n as [|n IH]; intros s t; [done|].
  cbn [run]. destruct (tstep s t) as [[s1 t1]|] eqn:Ht; [|done].
  eapply rtc_l; [|apply IH]. by apply step_thread.
Qed.

Lemma omap_NoDup_lookup {A B} (f : A -> option B) (l : list A) :
  NoDup (omap f l) ->
  forall i j x y b, l !! i = Some x -> l !! j = Some y ->
    f x = Some b -> f y = Some b -> i = j.
Proof.
  induction l as [|a l IH]; intros Hnd i j x y b Hi Hj Hx Hy; [done|].
  cbn [omap list_omap] in Hnd.
  assert (forall k z, l !! k = Some z -> f z = Some b -> b ∈ omap f l) as Hin.
  { intros k z Hk Hz. apply list_elem_of_omap. exists z. split; [|done].
    by eapply list_elem_of_lookup_2. }
  destruct i as [|i], j as [|j]; cbn in Hi, Hj.
  - done.
  - injection Hi as ->. rewrite Hx in Hnd.
    apply NoDup_cons in Hnd as [Hnd _]. exfalso. by eapply Hnd, Hin.
  - injection Hj as ->. rewrite Hy in Hnd.
    apply NoDup_cons in Hnd as [Hnd _]. exfalso. by eapply Hnd, Hin.
  - f_equal. eapply IH; try done.
    destruct (f a); [by apply NoDup_cons in Hnd as [_ Hnd]|done].
Qed.

(** A step of the server changes no file that no goroutine holds, and no
    goroutine comes to hold such a file. *)
Lemma step_keeps_unowned st st' name c :
  isolated st -> step st st' ->
  files st.1 !! name = Some c -> name ∉ owned_names st.2 ->
  files st'.1 !! name = Some c /\ name ∉ owned_names st'.2.
Proof.
  intros (Hnd & Hok & _) Hstep.
  destruct Hstep as [s ts r|s s' t t' before after Ht]; cbn [fst snd] in *.
  - intros Hf Hno. split; [done|]. unfold owned_names. rewrite omap_app.
    cbn. by rewrite app_nil_r.
  - intros Hf Hno. rewrite owned_names_middle in Hno.
    apply Forall_app in Hok as [_ Hok]. apply Forall_cons in Hok as [Hokt _].
    pose proof (tstep_owned _ _ _ _ Ht Hokt) as (_ & Hframe & Hown).
    assert (owned t <> Some name) as Hne.
    { intros Ho. apply Hno. rewrite Ho. apply elem_of_app. right. by left. }
    split.
    + rewrite Hframe; [done|by eexists|done].
    + rewrite owned_names_middle. intros Hin. apply Hno.
      apply elem_of_app in Hin as [Hin|Hin]; [apply elem_of_app; by left|].
      apply elem_of_app. right.
      apply elem_of_app in Hin as [Hin|Hin]; [|apply elem_of_app; by right].
      exfalso. destruct Hown as [Ho|[Ho|(n & Ho & Hn)]]; rewrite Ho in Hin.
      * destruct (owned t) as [m|]; [|by apply elem_of_nil in Hin].
        apply list_elem_of_singleton in Hin as ->. by apply Hne.
      * by apply elem_of_nil in Hin.
      * apply list_elem_of_singleton in Hin as ->. congruence.
Qed.

(** X10.  Under every interleaving of the goroutines: when a request has
    been answered with status 200, a file of the directory holds exactly
    the body of that request, whatever the other requests have written in
    the meantime, no goroutine that is still running holds that file, and
    the response is the length of the body in decimal. *)
Theorem answered_200_has_stored_body s0 s ts t :
  reachable s0 (s, ts) -> t ∈ ts ->
  t_pc t = Done -> status (t_rw t) = Http.StatusOK ->
  exists name,
    files s !! name = Some (bytes_of (t_req t)) /\
    (name ∉ owned_names ts) /\
    written (t_rw t) = Fmt.fmt_v (Z.of_nat (length (bytes_of (t_req t)))).
Proof.
  intros Hr Hin Hd H2. apply reachable_isolated in Hr as (_ & _ & Hst).
  eapply Forall_forall in Hst; [|exact Hin]. exact (Hst Hd H2).
Qed.

Lemma answered_200_has_stored_body_witness :
  (t_pc served_once.2 = Done /\
   status (t_rw served_once.2) = Http.StatusOK) /\
  exists name,
    files served_once.1 !! name = Some (bytes_of (t_req served_once.2)) /\
    (name ∉ owned_names [served_once.2]) /\
    written (t_rw served_once.2)
    = Fmt.fmt_v (Z.of_nat (length (bytes_of (t_req served_once.2)))).
Proof.
  split; [by vm_compute|].
  apply (answered_200_has_stored_body empty_world served_once.1
           [served_once.2] served_once.2);
    [|by left|by vm_compute|by vm_compute].
  apply (run_reachable empty_world [] [] 20 empty_world (spawn sample_post)).
  apply (reach_step _ (empty_world, [])); [apply reach_init|].
  apply (step_accept empty_world [] sample_post).
Defined.

(** X11.  Under every interleaving: no two goroutines hold the same file,
    and while a goroutine copies its body, its file holds exactly the
    bytes of its own body that it has read so far, and the count that
    [io.Copy] keeps is their number. *)
Theorem goroutines_write_own_files s0 s ts :
  reachable s0 (s, ts) ->
  (forall i j ti tj name,
     ts !! i = Some ti -> ts !! j = Some tj ->
     owned ti = Some name -> owned tj = Some name -> i = j) /\
  (forall t f cs n,
     t ∈ ts -> t_pc t = AtCopy f cs n ->
     exists done,
       bytes_of (t_req t) = done ++ concat cs /\
       files s !! Name f = Some done /\
       n = Z.of_nat (length done)).
Proof.
  intros Hr. apply reachable_isolated in Hr as (Hnd & Hok & _).
  cbn [fst snd] in *. split.
  - intros i j ti tj name. by apply omap_NoDup_lookup.
  - intros t f cs n Hin Hpc. eapply Forall_forall in Hok; [|exact Hin].
    unfold thread_ok in Hok. rewrite Hpc in Hok.
    destruct Hok as (done & ? & ? & ? & _). by exists done.
Qed.

Lemma goroutines_write_own_files_witness :
  (streaming <$> [first_streaming.2; second_streaming.2] = [true; true] /\
   size (files second_streaming.1) = 2%nat) /\
  (forall i j ti tj name,
     [first_streaming.2; second_streaming.2] !! i = Some ti ->
     [first_streaming.2; second_streaming.2] !! j = Some tj ->
     owned ti = Some name -> owned tj = Some name -> i = j) /\
  (forall t f cs n,
     t ∈ [first_streaming.2; second_streaming.2] ->
     t_pc t = AtCopy f cs n ->
     exists done,
       bytes_of (t_req t) = done ++ concat cs /\
       files second_streaming.1 !! Name f = Some done /\
       n = Z.of_nat (length done)).
Proof.
  split; [by vm_compute|].
  apply (goroutines_write_own_files empty_world second_streaming.1
           [first_streaming.2; second_streaming.2]).
  apply (run_reachable empty_world [first_streaming.2] [] 8
           first_streaming.1 (spawn (with_path sample_post "/other"))).
  apply (reach_step _ (first_streaming.1, [] ++ [first_streaming.2]));
    [|apply step_accept].
  apply (run_reachable empty_world [] [] 8 empty_world (spawn sample_post)).
  apply (reach_step _ (empty_world, [])); [apply reach_init|].
  apply (step_accept empty_world [] sample_post).
Defined.

(** X12.  A file that no goroutine holds, which is every file that was in
    the directory when the server started and every file of a request that
    has returned, is never changed and never taken by a goroutine, whatever
    requests arrive and however their steps interleave. *)
Theorem finished_files_never_change s0 s ts s' ts' name c :
  reachable s0 (s, ts) -> rtc step (s, ts) (s', ts') ->
  files s !! name = Some c -> name ∉ owned_names ts ->
  files s' !! name = Some c /\ name ∉ owned_names ts'.
Proof.
  intros Hr Hsteps.
  remember (s, ts) as st eqn:Est. remember (s', ts') as st' eqn:Est'.
  revert s ts Est Hr.
  induction Hsteps as [st|st st1 st' Hstep _ IH]; intros s ts -> Hr Hf Hno.
  - by injection Est' as <- <-.
  - destruct st1 as [s1 ts1].
    destruct (step_keeps_unowned (s, ts) (s1, ts1) name c) as [Hf1 Hno1];
      try done.
    { by eapply reachable_isolated. }
    eapply IH; try done. by eapply reach_step.
Qed.

Lemma finished_files_never_change_witness :
  (status (t_rw served_beside.2) = Http.StatusOK /\
   size (files served_beside.1) = 3%nat) /\
  files served_beside.1 !! "198.51.100.3:9_x_000001"
  = Some [Byte.x62; Byte.x63] /\
  "198.51.100.3:9_x_000001" ∉ owned_names [served_beside.2].
Proof.
  split; [by vm_compute|].
  apply (finished_files_never_change busy_world busy_world []
           served_beside.1 [served_beside.2]
           "198.51.100.3:9_x_000001" [Byte.x62; Byte.x63]).
  - apply reach_init.
  - eapply rtc_l; [apply (step_accept busy_world [] sample_post)|].
    exact (run_steps [] [] 20 busy_world (spawn sample_post)).
  - by vm_compute.
  - apply not_elem_of_nil.
Defined.

(** No step of a goroutine changes the failures of [os.Stat] or removes a
    file. *)
Lemma tstep_env s t s' t' :
  tstep s t = Some (s', t') ->
  stat_fault s' = stat_fault s /\
  forall name, is_Some (files s !! name) -> is_Some (files s' !! name).
Proof.
  destruct t as [r w pc]. unfold tstep.
  cbn [t_pc t_req t_rw]. destruct pc as [| |name num err|name|res|res|f cs n|].
  - destruct (negb _); by intros [= <- <-].
  - unfold LOCK_Lock. destruct (locked s); [discriminate|].
    by intros [= <- <-].
  - destruct (keep_trying err); by intros [= <- <-].
  - unfold Os.OpenFile. destruct (Os.open_result s name);
      intros [= <- <-]; [done|]. split; [done|]. intros name' Hn.
    cbn [files emit set_handles set_files].
    apply lookup_insert_is_Some. destruct (decide (name = name')); auto.
  - by intros [= <- <-].
  - destruct res; by intros [= <- <-].
  - assert (forall c s1 nw ew,
              Os.Write (emit s (EvRead (length c) None)) f c = (s1, nw, ew) ->
              stat_fault s1 = stat_fault s /\
              forall name, is_Some (files s !! name) ->
                is_Some (files s1 !! name)) as Hw.
    { intros c s1 nw ew. unfold Os.Write. destruct (_ <=? _);
        intros [= <- <- <-]; (split; [done|]); intros name' Hn;
        cbn [files emit set_files]; apply lookup_insert_is_Some;
        destruct (decide (Name f = name')); auto. }
    destruct cs as [|c cs].
    + destruct (decide _); by intros [= <- <-].
    + destruct (0 <? length c)%nat; [|by intros [= <- <-]].
      destruct (Os.Write _ f c) as [[s1 nw] ew] eqn:Hwr.
      apply Hw in Hwr as [Hsf Hfs].
      destruct ew as [e|]; [|destruct (nw =? length c)%nat];
        intros [= <- <-]; by split.
  - discriminate.
Qed.

Lemma tstep_never_free s t s' t' r :
  tstep s t = Some (s', t') -> never_free s r -> never_free s' r.
Proof.
  intros Ht Hnf num. apply tstep_env in Ht as [Hsf Hfs].
  specialize (Hnf num). unfold Os.stat_result in *. rewrite Hsf.
  destruct (stat_fault s (makeName r num)); [done|].
  destruct (files s !! makeName r num) eqn:Hf; [|done].
  destruct (Hfs (makeName r num)) as [c ->]; [by eexists|done].
Qed.

Lemma tstep_probing s t s' t' :
  tstep s t = Some (s', t') -> probing t -> never_free s (t_req t) ->
  t_req t' = t_req t /\ probing t'.
Proof.
  destruct t as [r w pc]. intros Ht (num & err & Hpc & Hk) Hnf.
  cbn [t_pc t_req] in *. subst pc. unfold tstep in Ht.
  cbn [t_pc t_req t_rw] in Ht. rewrite Hk in Ht. injection Ht as <- <-.
  split; [done|]. exists (int_add num 1), (Os.stat_result s (makeName r num)).
  split; [done|]. apply Hnf.
Qed.

Lemma in_sequence_count_lookup ts i t :
  ts !! i = Some t -> in_sequence t = true -> (1 <= in_sequence_count ts)%nat.
Proof.
  revert i. induction ts as [|u ts IH]; intros i Hi Hs; [done|].
  rewrite in_sequence_count_cons. destruct i as [|i]; cbn in Hi.
  - injection Hi as ->. rewrite Hs. lia.
  - specialize (IH i Hi Hs). lia.
Qed.

(** A goroutine whose loop cannot end stays in the loop through every step
    of the server. *)
Lemma step_keeps_probing st st' i t :
  step st st' -> st.2 !! i = Some t -> probing t ->
  never_free st.1 (t_req t) ->
  exists t', st'.2 !! i = Some t' /\ t_req t' = t_req t /\ probing t' /\
             never_free st'.1 (t_req t).
Proof.
  intros Hstep. destruct Hstep as [s ts r|s s' u u' before after Hu];
    cbn [fst snd]; intros Hi Hp Hnf.
  - exists t. split_and!; try done. by apply lookup_app_l_Some.
  - destruct (decide (i = length before)) as [->|Hne].
    + rewrite list_lookup_middle in Hi by done. injection Hi as ->.
      destruct (tstep_probing _ _ _ _ Hu Hp Hnf) as [Hreq Hp'].
      exists u'. split_and!; try done.
      * by apply list_lookup_middle.
      * by eapply tstep_never_free.
    + exists t. split_and!; try done; [|by eapply tstep_never_free].
      destruct (decide (i < length before)%nat) as [Hlt|Hge].
      * rewrite lookup_app_l in Hi |- * by done. done.
      * rewrite lookup_app_r in Hi |- * by lia.
        destruct (i - length before)%nat as [|k] eqn:Hk; [lia|done].
Qed.

(** X13.  When no name of a request ends the loop of [openFile], because
    [os.Stat] fails for each of them with an error other than "does not
    exist" (or each of them exists), the goroutine of that request stays in
    the loop for good: in every later state of the server the lock is held,
    and no request that waits for the lock can move, so no later POST is
    answered. *)
Theorem endless_probe_blocks_uploads s0 s ts s' ts' i t :
  locked s0 = false -> reachable s0 (s, ts) -> rtc step (s, ts) (s', ts') ->
  ts !! i = Some t -> probing t -> never_free s (t_req t) ->
  locked s' = true /\
  (exists t', ts' !! i = Some t' /\ t_req t' = t_req t /\ probing t') /\
  (forall u, u ∈ ts' -> t_pc u = AtLock -> tstep s' u = None).
Proof.
  intros H0 Hr Hsteps.
  remember (s, ts) as st eqn:Est. remember (s', ts') as st' eqn:Est'.
  revert s ts t Est Hr.
  induction Hsteps as [st|st st1 st' Hstep _ IH];
    intros s ts t -> Hr Hi Hp Hnf.
  - injection Est' as <- <-.
    assert (locked s = true) as Hl.
    { pose proof (lock_invariant s0 (s, ts) H0 Hr) as Hinv.
      cbn [fst snd] in Hinv.
      assert (1 <= in_sequence_count ts)%nat as Hc.
      { eapply in_sequence_count_lookup; [exact Hi|].
        destruct Hp as (num & err & Hpc & _). unfold in_sequence.
        by rewrite Hpc. }
      destruct (locked s); [done|lia]. }
    split_and!; [done|by exists t|].
    intros [r w pc] _ Hpc. cbn [t_pc] in Hpc. subst pc.
    unfold tstep, LOCK_Lock. cbn [t_pc]. by rewrite Hl.
  - destruct st1 as [s1 ts1].
    destruct (step_keeps_probing (s, ts) (s1, ts1) i t Hstep Hi Hp Hnf)
      as (t1 & Hi1 & Hreq & Hp1 & Hnf1). cbn [fst snd] in *.
    rewrite <- Hreq in Hnf1.
    destruct (IH Est' s1 ts1 t1 eq_refl) as (Hl & (t' & Hi' & Hreq' & Hp') & Hw);
      try done.
    { by eapply reach_step. }
    split_and!; [done| |done]. exists t'. split_and!; try done. congruence.
Qed.

Lemma endless_probe_blocks_uploads_witness :
  (t_pc <$> [wedged_later.2; wedged_waiting.2]
   = [AtCond "192.0.2.7:40112_up_load_000051" 51 (Some EACCES); AtLock]) /\
  locked wedged_waiting.1 = true /\
  (exists t', [wedged_later.2; wedged_waiting.2] !! 0%nat = Some t' /\
              t_req t' = t_req wedged_first.2 /\ probing t') /\
  (forall u, u ∈ [wedged_later.2; wedged_waiting.2] ->
     t_pc u = AtLock -> tstep wedged_waiting.1 u = None).
Proof.
  split; [by vm_compute|].
  apply (endless_probe_blocks_uploads unsearchable_world
           wedged_first.1 [wedged_first.2]
           wedged_waiting.1 [wedged_later.2; wedged_waiting.2]
           0%nat wedged_first.2).
  - reflexivity.
  - apply (run_reachable unsearchable_world [] [] 3 unsearchable_world
             (spawn sample_post)).
    apply (reach_step _ (unsearchable_world, [])); [apply reach_init|].
    apply (step_accept unsearchable_world [] sample_post).
  - apply (rtc_trans (wedged_first.1, [wedged_first.2])
                     (wedged_later.1, [wedged_later.2])).
    { exact (run_steps [] [] 50 wedged_first.1 wedged_first.2). }
    apply (rtc_l _ _ (wedged_later.1,
                      [wedged_later.2]
                      ++ [spawn (with_path sample_post "/other")])).
    { apply (step_accept wedged_later.1 [wedged_later.2]
                (with_path sample_post "/other")). }
    exact (run_steps [wedged_later.2] [] 5 wedged_later.1
             (spawn (with_path sample_post "/other"))).
  - reflexivity.
  - exists 1, (Some EACCES). by vm_compute.
  - intros num. unfold Os.stat_result.
    assert (stat_fault wedged_first.1 = fun _ => Some EACCES) as ->
      by (by vm_compute).
    reflexivity.
Defined.

(** * The lock and the termination of [openFile] *)

(** Every name of the request with the long path is too long. *)
Lemma long_post_names num :
  (NAME_MAX < String.length (makeName long_post num))%nat.
Proof.
  unfold makeName. rewrite !string_length_app.
  assert (String.length
            (Strings.Replace
               (Strings.TrimPrefix (Filepath.Clean (URL_Path long_post)) "/")
               "/"%char "_" (-1)) = 299%nat) as -> by (vm_compute; reflexivity).
  unfold NAME_MAX. lia.
Qed.

Lemma probing_locked s0 s ts i t :
  locked s0 = false -> reachable s0 (s, ts) ->
  ts !! i = Some t -> probing t -> locked s = true.
Proof.
  intros H0 Hr Hi (num & err & Hpc & _).
  pose proof (lock_invariant s0 (s, ts) H0 Hr) as Hinv.
  cbn [fst snd] in Hinv.
  assert (1 <= in_sequence_count ts)%nat as Hc.
  { eapply in_sequence_count_lookup; [exact Hi|].
    unfold in_sequence. by rewrite Hpc. }
  destruct (locked s); [done|lia].
Qed.

Lemma AtLock_blocked s u :
  locked s = true -> t_pc u = AtLock -> tstep s u = None.
Proof.
  destruct u as [r w pc]. cbn [t_pc]. intros Hl ->.
  unfold tstep, LOCK_Lock. cbn [t_pc]. by rewrite Hl.
Qed.

Lemma step_keeps_waiting st st' j u :
  locked st.1 = true -> step st st' ->
  st.2 !! j = Some u -> t_pc u = AtLock -> st'.2 !! j = Some u.
Proof.
  intros Hl Hstep. destruct Hstep as [s ts r|s s' v v' before after Hv];
    cbn [fst snd] in *; intros Hj Hpc.
  - by apply lookup_app_l_Some.
  - destruct (decide (j = length before)) as [->|Hne].
    + rewrite list_lookup_middle in Hj by done. injection Hj as ->.
      rewrite (AtLock_blocked s u Hl Hpc) in Hv. discriminate.
    + destruct (decide (j < length before)%nat) as [Hlt|Hge].
      * rewrite lookup_app_l in Hj |- * by done. done.
      * rewrite lookup_app_r in Hj |- * by lia.
        destruct (j - length before)%nat as [|k] eqn:Hk; [lia|done].
Qed.

(** While a goroutine is in a loop that cannot end, a goroutine that waits
    for the lock waits in every later state. *)
Lemma waits_behind_endless_probe s0 s ts s' ts' i t j u :
  locked s0 = false -> reachable s0 (s, ts) -> rtc step (s, ts) (s', ts') ->
  ts !! i = Some t -> probing t -> never_free s (t_req t) ->
  ts !! j = Some u -> t_pc u = AtLock ->
  ts' !! j = Some u /\ tstep s' u = None.
Proof.
  intros H0 Hr Hsteps.
  remember (s, ts) as st eqn:Est. remember (s', ts') as st' eqn:Est'.
  revert s ts t Est Hr.
  induction Hsteps as [st|st st1 st' Hstep _ IH];
    intros s ts t -> Hr Hi Hp Hnf Hj Hpc.
  - injection Est' as <- <-. split; [done|].
    apply AtLock_blocked; [|done]. by apply (probing_locked s0 s ts i t).
  - destruct st1 as [s1 ts1].
    destruct (step_keeps_probing (s, ts) (s1, ts1) i t Hstep Hi Hp Hnf)
      as (t1 & Hi1 & Hreq & Hp1 & Hnf1). cbn [fst snd] in *.
    rewrite <- Hreq in Hnf1.
    apply (IH Est' s1 ts1 t1 eq_refl); try done.
    + by eapply reach_step.
    + apply (step_keeps_waiting (s, ts) (s1, ts1) j u); try done.
      cbn [fst]. by apply (probing_locked s0 s ts i t).
Qed.

(** The last part of C10 without the lock.  On a file system with a
    longest name, a POST request with a path of 300 bytes never leaves the
    loop of [openFile]: every name made for it is too long, and the error of
    [os.Stat] is not "does not exist".  A request that arrives after it
    waits in [LOCK.Lock]: its first candidate is reported not to exist,
    but [openFile] never returns for it, in whatever way the server goes
    on. *)
Lemma openFile_waits_behind_endless_probe :
  reachable bounded_world
    (short_waiting.1, [long_probing.2; short_waiting.2]) /\
  (t_req short_waiting.2 = sample_post /\ t_pc short_waiting.2 = AtLock) /\
  (exists k, Os.stat_result short_waiting.1 (candidate sample_post k)
             = Some ENOENT) /\
  ~ (exists fuel res, openFile fuel short_waiting.1 sample_post = Some res) /\
  (forall s' ts',
     rtc step (short_waiting.1, [long_probing.2; short_waiting.2]) (s', ts') ->
     ts' !! 1%nat = Some short_waiting.2 /\ tstep s' short_waiting.2 = None).
Proof.
  assert (reachable bounded_world
            (short_waiting.1, [long_probing.2; short_waiting.2])) as Hr.
  { apply (run_reachable bounded_world [long_probing.2] [] 5
             long_probing.1 (spawn sample_post)).
    apply (reach_step _ (long_probing.1, [] ++ [long_probing.2]));
      [|apply step_accept].
    apply (run_reachable bounded_world [] [] 3 bounded_world
             (spawn long_post)).
    apply (reach_step _ (bounded_world, [])); [apply reach_init|].
    apply (step_accept bounded_world [] long_post). }
  split_and!.
  - exact Hr.
  - vm_compute. reflexivity.
  - vm_compute. reflexivity.
  - exists 0%nat. vm_compute. reflexivity.
  - intros (fuel & res & Ho). unfold openFile, LOCK_Lock in Ho.
    assert (locked short_waiting.1 = true) as Hl by (vm_compute; reflexivity).
    rewrite Hl in Ho. discriminate.
  - intros s' ts' Hsteps.
    apply (waits_behind_endless_probe bounded_world short_waiting.1
             [long_probing.2; short_waiting.2] s' ts'
             0%nat long_probing.2 1%nat short_waiting.2);
      [reflexivity|exact Hr|exact Hsteps|reflexivity| | |reflexivity
      |vm_compute; reflexivity].
    + exists 1, (Some ENAMETOOLONG). split; vm_compute; reflexivity.
    + intros num. unfold Os.stat_result.
      assert (stat_fault short_waiting.1 = long_name_fault) as ->
        by (vm_compute; reflexivity).
      assert (t_req long_probing.2 = long_post) as ->
        by (vm_compute; reflexivity).
      unfold long_name_fault.
      destruct (Nat.ltb_spec NAME_MAX
                  (String.length (makeName long_post num))) as [_|Hle];
        [done|].
      pose proof (long_post_names num). lia.
Qed.
